(** * go-ensureinterval: the tick driver and the tick executor

    A shallow embedding of [interval.go] and [logger.go].

    - [time.Duration] is a 64-bit signed integer: a [Z] whose arithmetic
      wraps around ([wrap64]).
    - [time.Time] is the number of nanoseconds since Go's zero time, an
      unbounded [Z]; the location and the monotonic reading are left out
      ([Run] strips the latter with [Truncate] before it compares times).
    - The package variables [maxKetchups] and [lg], the wall clock and what
      the jobs own are fields of an explicit state that every operation
      threads.
    - A goroutine started by [go runJob(...)] is run when it is started, up
      to the sends it performs on its channel; an unbuffered channel with
      one sender is the queue of these sends, and a receive takes its head.
    - The two loops of [Run] need not terminate: they carry fuel. *)

From Stdlib Require Import ZArith List String Ascii Bool Lia.
Import ListNotations.
Local Open Scope string_scope.
Local Open Scope list_scope.
Local Open Scope Z_scope.

(** ** Durations and times *)

Definition Duration := Z.
Definition Time := Z.

Definition minDuration : Duration := - 2 ^ 63.
Definition maxDuration : Duration := 2 ^ 63 - 1.

(** The value an int64 holds after an operation whose exact result is [z]. *)
Definition wrap64 (z : Z) : Z := (z + 2 ^ 63) mod 2 ^ 64 - 2 ^ 63.

Definition dmul (a b : Duration) : Duration := wrap64 (a * b).
Definition dadd (a b : Duration) : Duration := wrap64 (a + b).
Definition dsub (a b : Duration) : Duration := wrap64 (a - b).

(** [t.Truncate(d)]: round [t] down to a multiple of [d] since the zero
    time; [t] itself when [d <= 0]. *)
Definition Truncate (t : Time) (d : Duration) : Time :=
  if d <=? 0 then t else t - t mod d.

(** [t.Add(d)]. *)
Definition Add (t : Time) (d : Duration) : Time := t + d.

(** [t.Sub(u)]: the difference, saturated to the range of a Duration. *)
Definition Sub (t u : Time) : Duration :=
  if t - u <? minDuration then minDuration
  else if maxDuration <? t - u then maxDuration
  else t - u.

(** ** Errors *)

Inductive error : Type :=
| New (msg : string)                    (* errors.New, and a job's own error *)
| Wrap (cause : error) (msg : string)   (* errors.Wrap, errors.Wrapf *)
| errMaxCatchups.                       (* &errMaxCatchups{} *)

Fixpoint Error (e : error) : string :=
  match e with
  | New msg => msg
  | Wrap cause msg => (msg ++ ": " ++ Error cause)%string
  | errMaxCatchups => "max catchups reached"
  end.

(** [Temporary] is a method of [errMaxCatchups] alone. *)
Definition Temporary (e : error) : option bool :=
  match e with
  | errMaxCatchups => Some true
  | _ => None
  end.

(** [fmt.Sprintf("%s, %s", a, err)]. *)
Definition Sprintf_s_s (a : string) (err : error) : string :=
  (a ++ ", " ++ Error err)%string.

(** ** The logger of logger.go *)

Inductive arg : Type :=
| AStr (s : string)
| ADur (d : Duration)
| AInt (n : Z)
| AErr (e : error).

(** What a logger has written so far. *)
Definition Sink := list (string * list arg).

Record logger : Type := {
  Debug : list arg -> Sink -> Sink;
  Debugf : string -> list arg -> Sink -> Sink;
  Printf : string -> list arg -> Sink -> Sink
}.

Record Logs : Type := {
  lg : option logger;
  sink : Sink
}.

Definition SetLogger (l : option logger) (ls : Logs) : Logs :=
  {| lg := l; sink := sink ls |}.

Module Log.

Definition debug (a : list arg) (ls : Logs) : Logs :=
  match lg ls with
  | None => ls
  | Some l => {| lg := lg ls; sink := Debug l a (sink ls) |}
  end.

Definition debugf (f : string) (a : list arg) (ls : Logs) : Logs :=
  match lg ls with
  | None => ls
  | Some l => {| lg := lg ls; sink := Debugf l f a (sink ls) |}
  end.

Definition logf (f : string) (a : list arg) (ls : Logs) : Logs :=
  match lg ls with
  | None => ls
  | Some l => {| lg := lg ls; sink := Printf l f a (sink ls) |}
  end.

End Log.

(** ** Channels *)

(** The signals a goroutine sends on its channel, in program order, not yet
    received. *)
Definition chan : Type := list (option error).

(** What a blocking operation comes to. *)
Inductive completion (A : Type) : Type :=
| Returns (a : A)
| Blocks.
Arguments Returns {A} a.
Arguments Blocks {A}.

(** [<-c]: the first pending send; a channel nobody sends on blocks. *)
Definition recv (c : chan) : option (option error * chan) :=
  match c with
  | [] => None
  | sig :: c' => Some (sig, c')
  end.

(** ** Jobs and the state of the process *)

Section Scheduler.

(** What the jobs and the job loader own. *)
Context {U : Type}.

(** The part of the process a job or a loader can change: its own data, and
    [maxKetchups] through [SetMaxCatchup]. *)
Record World : Type := {
  maxKetchups : Z;
  user : U
}.

Definition SetMaxCatchup (max : Z) (w : World) : World :=
  {| maxKetchups := max; user := user w |}.

Definition ExecFunc : Type := World -> option error * World.

Record Job : Type := {
  Name : string;
  Exec : ExecFunc;
  Frequency : Duration
}.

Definition JobLoader : Type := World -> (list Job * option error) * World.

Inductive Event : Type :=
| EvNow (t : Time)                        (* time.Now() returned t *)
| EvLoad                                  (* getJobs() was called *)
| EvTick (tick : Time) (jobs : list Job)  (* processJobs was entered *)
| EvRun (j : Job) (res : option error)    (* go runJob(j, ...); j.Exec() returned res *)
| EvRecv (sig : option error)             (* <-c yielded sig *)
| EvSleep (d : Duration).                 (* time.Sleep(d) *)

Record State : Type := {
  world : World;
  logs : Logs;
  clock : nat -> Time;   (* the successive readings of the wall clock *)
  reads : nat;           (* how many were taken *)
  trace : list Event     (* what happened so far, oldest first *)
}.

Definition setWorld (w : World) (s : State) : State :=
  {| world := w; logs := logs s; clock := clock s; reads := reads s;
     trace := trace s |}.

Definition setLogs (ls : Logs) (s : State) : State :=
  {| world := world s; logs := ls; clock := clock s; reads := reads s;
     trace := trace s |}.

Definition emit (e : Event) (s : State) : State :=
  {| world := world s; logs := logs s; clock := clock s; reads := reads s;
     trace := trace s ++ [e] |}.

Definition debug (a : list arg) (s : State) : State :=
  setLogs (Log.debug a (logs s)) s.

Definition debugf (f : string) (a : list arg) (s : State) : State :=
  setLogs (Log.debugf f a (logs s)) s.

Definition logf (f : string) (a : list arg) (s : State) : State :=
  setLogs (Log.logf f a (logs s)) s.

(** [time.Now()]. *)
Definition timeNow (s : State) : Time * State :=
  let t := clock s (reads s) in
  (t, emit (EvNow t)
        {| world := world s; logs := logs s; clock := clock s;
           reads := S (reads s); trace := trace s |}).

(** [time.Sleep(d)]; how long it lasts shows in the next clock reading. *)
Definition timeSleep (d : Duration) (s : State) : State := emit (EvSleep d) s.

(** ** The tick executor *)

(** [runJob]: the body of one goroutine. The send of the error is followed
    by the send of nil: the [if] has no [else] and does not return. *)
Definition runJob (job : Job) (interval : Duration) (s : State) : chan * State :=
  let s1 := debugf "running job %s (%s)"
              [AStr (Name job); ADur (dmul (Frequency job) interval)] s in
  let (err, w) := Exec job (world s1) in
  let s2 := emit (EvRun job err) (setWorld w s1) in
  let complete :=
    match err with
    | Some e => [Some (Wrap e ("executing job " ++ Name job)%string)]
    | None => []
    end in
  (complete ++ [None], s2).

(** The test of line 81. *)
Definition due (now : Time) (interval : Duration) (j : Job) : bool :=
  Truncate now (dmul (Frequency j) interval) =? now.

(** The first loop of [processJobs]. *)
Fixpoint startJobs (now : Time) (interval : Duration) (jobs : list Job)
    (completes : list chan) (jCount : Z) (s : State)
    : list chan * Z * State :=
  match jobs with
  | [] => (completes, jCount, s)
  | j :: rest =>
      if due now interval j then
        let (complete, s1) := runJob j interval s in
        startJobs now interval rest (completes ++ [complete]) (jCount + 1) s1
      else startJobs now interval rest completes jCount s
  end.

(** The second loop of [processJobs]. *)
Fixpoint drain (completes : list chan) (errs : list error) (s : State)
    : completion (list error) * State :=
  match completes with
  | [] => (Returns errs, s)
  | c :: rest =>
      match recv c with
      | None => (Blocks, s)
      | Some (err, _) =>
          let s1 := emit (EvRecv err) s in
          let (errs1, s2) :=
            match err with
            | Some e => (errs ++ [e], logf "%+v" [AErr e] s1)
            | None => (errs, s1)
            end in
          drain rest errs1 (debug [AStr "job finished"] s2)
      end
  end.

Definition processJobs (now : Time) (interval : Duration) (jobs : list Job)
    (s : State) : completion (option error) * State :=
  let '(completes, jCount, s1) :=
    startJobs now interval jobs [] 0 (emit (EvTick now jobs) s) in
  let s2 := debugf "started %d jobs" [AInt jCount] s1 in
  match drain completes [] s2 with
  | (Blocks, s3) => (Blocks, s3)
  | (Returns errs, s3) =>
      if Nat.eqb (List.length errs) 0 then (Returns None, s3)
      else (Returns (Some (New (fold_left Sprintf_s_s errs ""))), s3)
  end.

(** ** The tick driver *)

(** How the catch-up loop of lines 51 to 60 is left. *)
Inductive loopExit : Type :=
| Done (lastElapsed : Duration)   (* the loop condition failed *)
| Fail (e : error)                (* return e *)
| Stuck                           (* processJobs never returned *)
| NoFuel.

(** The catch-up loop. [lastElapsed] is the variable of line 50, assigned
    again at line 56; [elapsed] and [totalInterval] are the loop's own
    variables, updated by its post statement after the body. *)
Fixpoint catchup (fuel : nat) (interval : Duration) (now : Time)
    (jobs : list Job) (lastElapsed elapsed totalInterval : Duration)
    (s : State) : loopExit * State :=
  if elapsed >? totalInterval then
    match fuel with
    | O => (NoFuel, s)
    | S fuel' =>
        let nowKetchup := Add now totalInterval in
        match processJobs nowKetchup interval jobs s with
        | (Blocks, s1) => (Stuck, s1)
        | (Returns (Some err), s1) => (Fail err, s1)
        | (Returns None, s1) =>
            let (t, s2) := timeNow s1 in
            let lastElapsed := Sub t nowKetchup in
            if totalInterval >? dmul interval (maxKetchups (world s2))
            then (Fail errMaxCatchups, s2)
            else catchup fuel' interval now jobs lastElapsed
                   (dadd elapsed lastElapsed) (dadd totalInterval interval) s2
        end
    end
  else (Done lastElapsed, s).

(** How [Run] ends, if it does. *)
Inductive outcome : Type :=
| Returned (e : error)
| Hung                  (* blocked in processJobs for ever *)
| Spinning.             (* still looping when the fuel ran out *)

(** One pass through the body of the outer loop; [None] when the pass
    reaches the end of the body and the loop goes round again. *)
Definition iteration (fuel : nat) (interval : Duration) (getJobs : JobLoader)
    (s : State) : option outcome * State :=
  let (t0, s1) := timeNow s in
  let now := Truncate t0 interval in
  let '(jobs, err, w) := getJobs (world s1) in
  let s2 := emit EvLoad (setWorld w s1) in
  match err with
  | Some e => (Some (Returned (Wrap e "getting jobs")), s2)
  | None =>
      match processJobs now interval jobs s2 with
      | (Blocks, s3) => (Some Hung, s3)
      | (Returns (Some e), s3) => (Some (Returned e), s3)
      | (Returns None, s3) =>
          let (t1, s4) := timeNow s3 in
          let lastElapsed := Sub t1 now in
          match catchup fuel interval now jobs lastElapsed lastElapsed
                  interval s4 with
          | (Fail e, s5) => (Some (Returned e), s5)
          | (Stuck, s5) => (Some Hung, s5)
          | (NoFuel, s5) => (Some Spinning, s5)
          | (Done lastElapsed', s5) =>
              let sleepTime := dsub interval lastElapsed' in
              (None, timeSleep sleepTime s5)
          end
      end
  end.

Fixpoint Run (fuel : nat) (interval : Duration) (getJobs : JobLoader)
    (s : State) : outcome * State :=
  match fuel with
  | O => (Spinning, s)
  | S fuel' =>
      match iteration fuel' interval getJobs s with
      | (Some o, s') => (o, s')
      | (None, s') => Run fuel' interval getJobs s'
      end
  end.

(** The process as it starts: [maxKetchups] is 20 and no logger is set. *)
Definition initState (u : U) (clk : nat -> Time) : State :=
  {| world := {| maxKetchups := 20; user := u |};
     logs := {| lg := None; sink := [] |};
     clock := clk; reads := 0; trace := [] |}.

(** ** Reading a trace *)

(** The events of [s'] that [s] does not have yet. *)
Definition since (s s' : State) : list Event :=
  skipn (List.length (trace s)) (trace s').

(** The jobs a unit was launched for, in launch order. *)
Fixpoint launched (evs : list Event) : list Job :=
  match evs with
  | [] => []
  | EvRun j _ :: evs' => j :: launched evs'
  | _ :: evs' => launched evs'
  end.

(** The jobs whose action returned an error. *)
Fixpoint failed (evs : list Event) : list Job :=
  match evs with
  | [] => []
  | EvRun j (Some _) :: evs' => j :: failed evs'
  | _ :: evs' => failed evs'
  end.

(** The signals received. *)
Fixpoint received (evs : list Event) : list (option error) :=
  match evs with
  | [] => []
  | EvRecv sig :: evs' => sig :: received evs'
  | _ :: evs' => received evs'
  end.

(** The calls of [processJobs]: the tick boundary and the job list. *)
Fixpoint ticks (evs : list Event) : list (Time * list Job) :=
  match evs with
  | [] => []
  | EvTick t jobs :: evs' => (t, jobs) :: ticks evs'
  | _ :: evs' => ticks evs'
  end.

(** The number of calls of the job loader. *)
Fixpoint loads (evs : list Event) : nat :=
  match evs with
  | [] => O
  | EvLoad :: evs' => S (loads evs')
  | _ :: evs' => loads evs'
  end.

End Scheduler.

Arguments World U : clear implicits.
Arguments Job U : clear implicits.
Arguments State U : clear implicits.
Arguments Event U : clear implicits.
Arguments JobLoader U : clear implicits.
Arguments ExecFunc U : clear implicits.

(** ** What a tick comes to *)

Section Outcomes.

Context {U : Type}.

(** The due jobs of a tick with what their actions return, the actions run
    in launch order from world [w]. *)
Fixpoint outcomes (now : Time) (interval : Duration) (jobs : list (Job U))
    (w : World U) : list (Job U * option error) * World U :=
  match jobs with
  | [] => ([], w)
  | j :: rest =>
      if due now interval j then
        let (r, w1) := Exec j w in
        let (os, w2) := outcomes now interval rest w1 in
        ((j, r) :: os, w2)
      else outcomes now interval rest w
  end.

(** The first signal of the unit of job [fst o], whose action returned
    [snd o]. *)
Definition signalOf (o : Job U * option error) : option error :=
  match snd o with
  | Some e => Some (Wrap e ("executing job " ++ Name (fst o))%string)
  | None => None
  end.

(** All the sends of that unit. *)
Definition sendsOf (o : Job U * option error) : chan :=
  match snd o with
  | Some e => [Some (Wrap e ("executing job " ++ Name (fst o))%string); None]
  | None => [None]
  end.

Definition evRun (o : Job U * option error) : Event U := EvRun (fst o) (snd o).

Definition evRecv (o : Job U * option error) : Event U := EvRecv (signalOf o).

(** The errors among signals. *)
Fixpoint errorsOf (sigs : list (option error)) : list error :=
  match sigs with
  | [] => []
  | Some e :: sigs' => e :: errorsOf sigs'
  | None :: sigs' => errorsOf sigs'
  end.

(** Lines 100 to 108: the value returned for the errors collected. *)
Definition combined (errs : list error) : option error :=
  if Nat.eqb (List.length errs) 0 then None
  else Some (New (fold_left Sprintf_s_s errs "")).

(** Two states that differ at most in the logger and in what it wrote. *)
Definition sameButLogs (s1 s2 : State U) : Prop :=
  world s1 = world s2 /\ clock s1 = clock s2 /\ reads s1 = reads s2 /\
  trace s1 = trace s2.

End Outcomes.

(** [sub] occurs in [s]. *)
Definition occursIn (sub s : string) : Prop :=
  exists pre post, s = (pre ++ sub ++ post)%string.

(** The calls of [processJobs] made by [n] catch-up rounds in a row, the
    first of them with budget [totalInterval]. *)
Fixpoint catchupTicks {U : Type} (now : Time) (interval : Duration)
    (jobs : list (Job U)) (totalInterval : Duration) (n : nat)
    : list (Time * list (Job U)) :=
  match n with
  | O => []
  | S n' =>
      (Add now totalInterval, jobs) ::
      catchupTicks now interval jobs (dadd totalInterval interval) n'
  end.

(** ** Sample jobs, loaders and clocks *)

(** A job whose action succeeds and one whose action fails with [msg]. *)
Definition okJob (name : string) (f : Duration) : Job unit :=
  {| Name := name; Exec := fun w => (None, w); Frequency := f |}.

Definition failingJob (name : string) (f : Duration) (msg : string) : Job unit :=
  {| Name := name; Exec := fun w => (Some (New msg), w); Frequency := f |}.

(** A job whose action calls [SetMaxCatchup(m)]. *)
Definition limitJob (name : string) (f : Duration) (m : Z) : Job unit :=
  {| Name := name; Exec := fun w => (None, SetMaxCatchup m w); Frequency := f |}.

(** A loader that always returns [jobs]. *)
Definition fixedJobs (jobs : list (Job unit)) : JobLoader unit :=
  fun w => (jobs, None, w).

(** A clock that shows [readings] one after the other, then [after]. *)
Definition readings (l : list Time) (after : Time) (n : nat) : Time :=
  nth n l after.

(** A logger that keeps every call. *)
Definition recorder : logger :=
  {| Debug := fun a k => k ++ [("", a)];
     Debugf := fun f a k => k ++ [(f, a)];
     Printf := fun f a k => k ++ [(f, a)] |}.

(** ** More of the package, and more readers *)

(** The [String] method of [errMaxCatchups]: it returns [e.Error()]. *)
Definition errMaxCatchups_String : string := Error errMaxCatchups.

(** The durations slept. *)
Fixpoint sleeps {U : Type} (evs : list (Event U)) : list Duration :=
  match evs with
  | [] => []
  | EvSleep d :: evs' => d :: sleeps evs'
  | _ :: evs' => sleeps evs'
  end.

(** The messages of [errs], each after a comma and a space. *)
Fixpoint messages (errs : list error) : string :=
  match errs with
  | [] => ""
  | e :: errs' => (", " ++ Error e ++ messages errs')%string
  end.

(** The state in which [iteration] calls [processJobs] when the loader,
    called in [s], leaves world [w]. *)
Definition loaded {U : Type} (w : World U) (s : State U) : State U :=
  emit EvLoad (setWorld w (snd (timeNow s))).

(** The line [runJob] logs, from its goroutine, for job [fst o]. *)
Definition runningLine {U : Type} (interval : Duration)
    (o : Job U * option error) : string * list arg :=
  ("running job %s (%s)",
   [AStr (Name (fst o)); ADur (dmul (Frequency (fst o)) interval)]).

Definition isRunningLine (c : string * list arg) : bool :=
  String.eqb (fst c) "running job %s (%s)".

(** The lines [processJobs] itself logs for a tick with outcomes [os]: the
    number of jobs started, then, channel by channel, the error received if
    any and "job finished". *)
Definition tickLines {U : Type} (os : list (Job U * option error)) : Sink :=
  ("started %d jobs", [AInt (Z.of_nat (List.length os))]) ::
  flat_map (fun o =>
              match signalOf o with
              | Some e => [("%+v", [AErr e])]
              | None => []
              end ++ [("", [AStr "job finished"])]) os.

(** A loader that fails with [msg]. *)
Definition brokenLoader (msg : string) : JobLoader unit :=
  fun w => ([], Some (New msg), w).

(** A process that starts with the clock at 100, then 115, 118 and 121. *)
Definition lateStart : State unit :=
  initState tt (readings [100; 115; 118; 121] 200).

(** A process that starts with the clock at 100, then 103. *)
Definition promptStart : State unit := initState tt (readings [100; 103] 200).

(** The same, with the logger that keeps every call. *)
Definition recordedStart : State unit :=
  setLogs (SetLogger (Some recorder) (logs promptStart)) promptStart.

(** Two jobs of every tick, of which the second fails. *)
Definition mixedJobs : list (Job unit) :=
  [okJob "A" 1; failingJob "B" 1 "boom"].

(** Whether the action of job [fst o] returned an error. *)
Definition hasFailed {U : Type} (o : Job U * option error) : bool :=
  match snd o with
  | Some _ => true
  | None => false
  end.




(** * Properties *)

(** ** int64 arithmetic and truncation *)

Lemma wrap64_small (z : Z) :
  minDuration <= z <= maxDuration -> wrap64 z = z.
Proof.
  unfold wrap64, minDuration, maxDuration. intros H.
  rewrite Z.mod_small; lia.
Qed.

Lemma wrap64_add_l (a b : Z) : wrap64 (wrap64 a + b) = wrap64 (a + b).
Proof.
  unfold wrap64. f_equal.
  replace (a + 2 ^ 63 + b) with (a + b + 2 ^ 63) by lia.
  replace ((a + 2 ^ 63) mod 2 ^ 64 - 2 ^ 63 + b + 2 ^ 63)
    with ((a + 2 ^ 63) mod 2 ^ 64 + b) by lia.
  rewrite Zplus_mod_idemp_l. f_equal. lia.
Qed.

Lemma dmul_exact (a b : Duration) :
  minDuration <= a * b <= maxDuration -> dmul a b = a * b.
Proof. apply wrap64_small. Qed.

Lemma Truncate_nonpositive (t : Time) (d : Duration) :
  d <= 0 -> Truncate t d = t.
Proof.
  intros H. unfold Truncate.
  destruct (Z.leb_spec d 0); [reflexivity | lia].
Qed.

Lemma Truncate_fixed_iff (t : Time) (d : Duration) :
  0 < d -> (Truncate t d = t <-> exists k, t = k * d).
Proof.
  intros Hd. unfold Truncate.
  destruct (Z.leb_spec d 0); [lia |].
  split.
  - intros Ht. exists (t / d).
    pose proof (Z_div_mod_eq_full t d). lia.
  - intros [k ->]. rewrite Z_mod_mult. lia.
Qed.

(** ** Traces *)

Section Traces.

Context {U : Type}.

Lemma since_app (s s' : State U) (evs : list (Event U)) :
  trace s' = trace s ++ evs -> since s s' = evs.
Proof.
  intros H. unfold since. rewrite H, skipn_app, skipn_all, Nat.sub_diag.
  reflexivity.
Qed.

Lemma launched_app (a b : list (Event U)) :
  launched (a ++ b) = launched a ++ launched b.
Proof.
  induction a as [|e a IH]; [reflexivity |].
  destruct e; cbn; rewrite IH; reflexivity.
Qed.

Lemma failed_app (a b : list (Event U)) :
  failed (a ++ b) = failed a ++ failed b.
Proof.
  induction a as [|e a IH]; [reflexivity |].
  destruct e as [| | | j [err|] | |]; cbn; rewrite IH; reflexivity.
Qed.

Lemma received_app (a b : list (Event U)) :
  received (a ++ b) = received a ++ received b.
Proof.
  induction a as [|e a IH]; [reflexivity |].
  destruct e; cbn; rewrite IH; reflexivity.
Qed.

Lemma ticks_app (a b : list (Event U)) : ticks (a ++ b) = ticks a ++ ticks b.
Proof.
  induction a as [|e a IH]; [reflexivity |].
  destruct e; cbn; rewrite IH; reflexivity.
Qed.

Lemma loads_app (a b : list (Event U)) : loads (a ++ b) = (loads a + loads b)%nat.
Proof.
  induction a as [|e a IH]; [reflexivity |].
  destruct e; cbn; rewrite IH; reflexivity.
Qed.

Lemma launched_runs (os : list (Job U * option error)) :
  launched (map evRun os) = map fst os.
Proof. induction os as [|o os IH]; cbn; [|rewrite IH]; reflexivity. Qed.

Lemma launched_recvs (os : list (Job U * option error)) :
  launched (map evRecv os) = [].
Proof. induction os as [|o os IH]; cbn; [reflexivity | exact IH]. Qed.

Lemma received_runs (os : list (Job U * option error)) :
  received (map evRun os) = [].
Proof. induction os as [|o os IH]; cbn; [reflexivity | exact IH]. Qed.

Lemma received_recvs (os : list (Job U * option error)) :
  received (map evRecv os) = map signalOf os.
Proof. induction os as [|o os IH]; cbn; [|rewrite IH]; reflexivity. Qed.

Lemma failed_recvs (os : list (Job U * option error)) :
  failed (map evRecv os) = [].
Proof. induction os as [|o os IH]; cbn; [reflexivity | exact IH]. Qed.

Lemma ticks_runs (os : list (Job U * option error)) : ticks (map evRun os) = [].
Proof. induction os as [|o os IH]; cbn; [reflexivity | exact IH]. Qed.

Lemma ticks_recvs (os : list (Job U * option error)) : ticks (map evRecv os) = [].
Proof. induction os as [|o os IH]; cbn; [reflexivity | exact IH]. Qed.

Lemma loads_runs (os : list (Job U * option error)) : loads (map evRun os) = O.
Proof. induction os as [|o os IH]; cbn; [reflexivity | exact IH]. Qed.

Lemma loads_recvs (os : list (Job U * option error)) : loads (map evRecv os) = O.
Proof. induction os as [|o os IH]; cbn; [reflexivity | exact IH]. Qed.

End Traces.

(** ** The tick executor, step by step *)

Section Executor.

Context {U : Type}.
Implicit Types (s : State U) (j : Job U) (jobs : list (Job U)).

Lemma outcomes_due now interval jobs (w : World U) :
  map fst (fst (outcomes now interval jobs w)) = filter (due now interval) jobs.
Proof.
  revert w. induction jobs as [|j rest IH]; intros w; cbn; [reflexivity |].
  destruct (due now interval j).
  - destruct (Exec j w) as [r w1]. specialize (IH w1).
    destruct (outcomes now interval rest w1) as [os w2]. cbn in *.
    rewrite IH. reflexivity.
  - apply IH.
Qed.

Lemma runJob_spec j interval s :
  exists s',
    runJob j interval s = (sendsOf (j, fst (Exec j (world s))), s') /\
    world s' = snd (Exec j (world s)) /\
    trace s' = trace s ++ [EvRun j (fst (Exec j (world s)))] /\
    clock s' = clock s /\ reads s' = reads s.
Proof.
  unfold runJob. cbn. destruct (Exec j (world s)) as [[e|] w]; cbn;
    eexists; repeat split.
Qed.

Lemma startJobs_spec now interval jobs :
  forall (completes : list chan) (jCount : Z) s,
  exists s',
    startJobs now interval jobs completes jCount s =
      (completes ++ map sendsOf (fst (outcomes now interval jobs (world s))),
       jCount + Z.of_nat (List.length (fst (outcomes now interval jobs (world s)))),
       s') /\
    world s' = snd (outcomes now interval jobs (world s)) /\
    trace s' = trace s ++ map evRun (fst (outcomes now interval jobs (world s))) /\
    clock s' = clock s /\ reads s' = reads s.
Proof.
  induction jobs as [|j rest IH]; intros completes jCount s; cbn.
  - exists s. rewrite !app_nil_r, Z.add_0_r. repeat split.
  - destruct (due now interval j).
    + destruct (runJob_spec j interval s) as (s1 & E & Hw & Ht & Hc & Hr).
      rewrite E.
      destruct (IH (completes ++ [sendsOf (j, fst (Exec j (world s)))])
                  (jCount + 1) s1) as (s' & E' & Hw' & Ht' & Hc' & Hr').
      exists s'. rewrite E', Hw', Ht', Hc', Hr', Hw, Ht, Hc, Hr.
      destruct (Exec j (world s)) as [r w1]. cbn.
      destruct (outcomes now interval rest w1) as [os w2]. cbn.
      rewrite <- !app_assoc. cbn.
      repeat split. f_equal. f_equal. lia.
    + apply IH.
Qed.

Lemma drain_spec (os : list (Job U * option error)) :
  forall (errs : list error) s,
  exists s',
    drain (map sendsOf os) errs s =
      (Returns (errs ++ errorsOf (map signalOf os)), s') /\
    world s' = world s /\
    trace s' = trace s ++ map evRecv os /\
    clock s' = clock s /\ reads s' = reads s.
Proof.
  induction os as [|[j [e|]] os IH]; intros errs s; cbn.
  - exists s. rewrite !app_nil_r. repeat split.
  - match goal with |- context [drain _ ?e ?st] =>
      destruct (IH e st) as (s' & E & Hw & Ht & Hc & Hr) end.
    exists s'. rewrite E, Hw, Ht, Hc, Hr. cbn. rewrite <- !app_assoc.
    repeat split.
  - match goal with |- context [drain _ ?e ?st] =>
      destruct (IH e st) as (s' & E & Hw & Ht & Hc & Hr) end.
    exists s'. rewrite E, Hw, Ht, Hc, Hr. cbn. rewrite <- !app_assoc.
    repeat split.
Qed.

(** [processJobs] returns, whatever the jobs: every channel it reads has a
    first send. What it returns and the state it leaves are those of
    [outcomes]. *)
Lemma processJobs_spec now interval jobs s :
  exists s',
    processJobs now interval jobs s =
      (Returns (combined (errorsOf (map signalOf
                  (fst (outcomes now interval jobs (world s)))))), s') /\
    world s' = snd (outcomes now interval jobs (world s)) /\
    trace s' = trace s ++
      EvTick now jobs ::
      map evRun (fst (outcomes now interval jobs (world s))) ++
      map evRecv (fst (outcomes now interval jobs (world s))) /\
    clock s' = clock s /\ reads s' = reads s.
Proof.
  unfold processJobs.
  destruct (startJobs_spec now interval jobs [] 0 (emit (EvTick now jobs) s))
    as (s1 & E1 & Hw1 & Ht1 & Hc1 & Hr1).
  cbn in E1, Hw1, Ht1, Hc1, Hr1. rewrite E1.
  set (os := fst (outcomes now interval jobs (world s))) in *.
  destruct (drain_spec os []
              (debugf "started %d jobs" [AInt (0 + Z.of_nat (List.length os))] s1))
    as (s3 & E3 & Hw3 & Ht3 & Hc3 & Hr3).
  cbn in E3, Hw3, Ht3, Hc3, Hr3. rewrite E3.
  unfold combined.
  destruct (Nat.eqb _ 0); exists s3;
    rewrite Hw3, Ht3, Hc3, Hr3, Hw1, Ht1, Hc1, Hr1, <- !app_assoc; cbn;
    repeat split.
Qed.

End Executor.

(** ** Messages *)

Lemma append_assoc (a b c : string) :
  ((a ++ b) ++ c = a ++ (b ++ c))%string.
Proof. induction a as [|x a IH]; cbn; [|rewrite IH]; reflexivity. Qed.

Lemma occursIn_refl (s : string) : occursIn s s.
Proof.
  exists ""%string, ""%string. cbn.
  induction s as [|x s IH]; cbn; [|rewrite <- IH]; reflexivity.
Qed.

Lemma occursIn_trans (a b c : string) :
  occursIn a b -> occursIn b c -> occursIn a c.
Proof.
  intros (p1 & q1 & ->) (p2 & q2 & ->).
  exists (p2 ++ p1)%string, (q1 ++ q2)%string.
  rewrite !append_assoc. reflexivity.
Qed.

Lemma occursIn_append_l (sub a b : string) :
  occursIn sub a -> occursIn sub (a ++ b)%string.
Proof.
  intros (p & q & ->). exists p, (q ++ b)%string.
  rewrite !append_assoc. reflexivity.
Qed.

Lemma occursIn_append_r (sub a b : string) :
  occursIn sub b -> occursIn sub (a ++ b)%string.
Proof.
  intros (p & q & ->). exists (a ++ p)%string, q.
  rewrite !append_assoc. reflexivity.
Qed.

(** The message of a wrapped job error names the job. *)
Lemma Error_Wrap_names (e : error) (name : string) :
  occursIn name (Error (Wrap e ("executing job " ++ name)%string)).
Proof.
  cbn [Error]. apply occursIn_append_l, occursIn_append_r, occursIn_refl.
Qed.

Lemma fold_Sprintf_keeps (errs : list error) :
  forall (acc sub : string),
    occursIn sub acc -> occursIn sub (fold_left Sprintf_s_s errs acc).
Proof.
  induction errs as [|e errs IH]; intros acc sub H; cbn; [exact H |].
  apply IH. unfold Sprintf_s_s. apply occursIn_append_l, H.
Qed.

(** The combined message holds the message of every error collected. *)
Lemma fold_Sprintf_holds (errs : list error) :
  forall (acc : string) (e : error),
    In e errs -> occursIn (Error e) (fold_left Sprintf_s_s errs acc).
Proof.
  induction errs as [|e' errs IH]; intros acc e H; cbn; [destruct H |].
  destruct H as [-> | H].
  - apply fold_Sprintf_keeps. unfold Sprintf_s_s.
    apply occursIn_append_r, occursIn_append_r, occursIn_refl.
  - apply IH, H.
Qed.

(** ** Failing units and the errors received *)

Section Failures.

Context {U : Type}.

Lemma failed_runs_nil (os : list (Job U * option error)) :
  failed (map evRun os) = [] <-> errorsOf (map signalOf os) = [].
Proof.
  induction os as [|[j [e|]] os IH]; cbn; [tauto | | exact IH].
  split; discriminate.
Qed.

Lemma failed_runs_error (os : list (Job U * option error)) (j : Job U) :
  In j (failed (map evRun os)) ->
  exists e, In (Wrap e ("executing job " ++ Name j)%string)
              (errorsOf (map signalOf os)).
Proof.
  induction os as [|[j' [e|]] os IH]; cbn; [tauto | | exact IH].
  intros [-> | H].
  - exists e. left. reflexivity.
  - destruct (IH H) as [e' He']. exists e'. right. exact He'.
Qed.

Lemma errorsOf_signals_length (os : list (Job U * option error)) :
  List.length (errorsOf (map signalOf os)) = List.length (failed (map evRun os)).
Proof.
  induction os as [|[j [e|]] os IH]; cbn; [reflexivity | | exact IH].
  rewrite IH. reflexivity.
Qed.

(** The events of one call of [processJobs]. *)
Lemma processJobs_since now interval (jobs : list (Job U)) (s : State U) :
  since s (snd (processJobs now interval jobs s)) =
    EvTick now jobs ::
    map evRun (fst (outcomes now interval jobs (world s))) ++
    map evRecv (fst (outcomes now interval jobs (world s))).
Proof.
  destruct (processJobs_spec now interval jobs s) as (s' & E & _ & Ht & _).
  rewrite E. cbn [snd]. apply since_app, Ht.
Qed.

Lemma processJobs_launched now interval (jobs : list (Job U)) (s : State U) :
  launched (since s (snd (processJobs now interval jobs s))) =
    filter (due now interval) jobs.
Proof.
  rewrite processJobs_since. cbn [launched].
  rewrite launched_app, launched_runs, launched_recvs, app_nil_r.
  apply outcomes_due.
Qed.

Lemma processJobs_failed now interval (jobs : list (Job U)) (s : State U) :
  failed (since s (snd (processJobs now interval jobs s))) =
    failed (map evRun (fst (outcomes now interval jobs (world s)))).
Proof.
  rewrite processJobs_since. cbn [failed].
  rewrite failed_app, failed_recvs, app_nil_r. reflexivity.
Qed.

Lemma processJobs_received now interval (jobs : list (Job U)) (s : State U) :
  received (since s (snd (processJobs now interval jobs s))) =
    map signalOf (fst (outcomes now interval jobs (world s))).
Proof.
  rewrite processJobs_since. cbn [received].
  rewrite received_app, received_runs, received_recvs. reflexivity.
Qed.

Lemma processJobs_result now interval (jobs : list (Job U)) (s : State U) :
  fst (processJobs now interval jobs s) =
    Returns (combined (errorsOf (map signalOf
               (fst (outcomes now interval jobs (world s)))))).
Proof.
  destruct (processJobs_spec now interval jobs s) as (s' & E & _).
  rewrite E. reflexivity.
Qed.

End Failures.

(** ** The tick executor: due selection *)

Section Selection.

Context {U : Type}.
Implicit Types (s : State U) (j : Job U) (jobs : list (Job U)).

Lemma due_iff now interval j :
  due now interval j = true <-> Truncate now (dmul (Frequency j) interval) = now.
Proof. unfold due. apply Z.eqb_eq. Qed.

(** On the data model of the specification - a positive frequency and a
    positive interval whose product is a Duration - the jobs launched are
    those for which [now] is a multiple of [Frequency * interval] since the
    zero time. *)
Lemma processJobs_due_selection now interval jobs s j :
  0 < Frequency j -> 0 < interval -> Frequency j * interval <= maxDuration ->
  launched (since s (snd (processJobs now interval jobs s))) =
    filter (due now interval) jobs /\
  (due now interval j = true <->
     Truncate now (dmul (Frequency j) interval) = now) /\
  (due now interval j = true <-> exists k, now = k * (Frequency j * interval)).
Proof.
  intros Hf Hi Hmax. split; [apply processJobs_launched |].
  split; [apply due_iff |].
  rewrite due_iff, dmul_exact by (unfold minDuration; nia).
  apply Truncate_fixed_iff. nia.
Qed.

(** C7. At a tick boundary where no job of the list is due, [processJobs]
    launches no unit and returns nil. *)
Theorem processJobs_nothing_due now interval jobs s :
  (forall j, In j jobs -> due now interval j = false) ->
  fst (processJobs now interval jobs s) = Returns None /\
  launched (since s (snd (processJobs now interval jobs s))) = [] /\
  received (since s (snd (processJobs now interval jobs s))) = [].
Proof.
  intros H.
  assert (Hnone : fst (outcomes now interval jobs (world s)) = []).
  { apply (map_eq_nil fst). rewrite outcomes_due.
    induction jobs as [|j rest IH]; cbn; [reflexivity |].
    rewrite (H j) by (left; reflexivity).
    apply IH. intros j' Hj'. apply H. right. exact Hj'. }
  rewrite processJobs_result, processJobs_launched, processJobs_received.
  rewrite <- (outcomes_due now interval jobs (world s)), Hnone.
  repeat split.
Qed.

Lemma dmul_nonpositive (f interval : Duration) :
  f <= 0 -> 0 < interval -> minDuration <= f * interval ->
  dmul f interval <= 0.
Proof.
  intros Hf Hi Hmin. rewrite dmul_exact; [nia |].
  unfold maxDuration. split; [exact Hmin | nia].
Qed.

(** C10, as the code has it. A job whose frequency is zero, or negative
    with an int64 product [Frequency * interval] that is not positive - as
    it is for a positive interval when the product does not overflow - is
    due at every tick boundary, and [processJobs] launches it: truncation by
    a duration that is not positive leaves the time as it is, and nothing
    checks that the frequency is positive. *)
Theorem processJobs_nonpositive_period now interval jobs s j :
  In j jobs ->
  Frequency j = 0 \/
  (Frequency j < 0 /\ dmul (Frequency j) interval <= 0) ->
  Truncate now (dmul (Frequency j) interval) = now /\
  due now interval j = true /\
  In j (launched (since s (snd (processJobs now interval jobs s)))) /\
  (0 < interval -> minDuration <= Frequency j * interval ->
   dmul (Frequency j) interval <= 0).
Proof.
  intros Hin Hf.
  assert (Hd : dmul (Frequency j) interval <= 0).
  { destruct Hf as [-> | [_ Hd]]; [| exact Hd].
    unfold dmul, wrap64. cbn. lia. }
  assert (Ht : Truncate now (dmul (Frequency j) interval) = now)
    by (apply Truncate_nonpositive, Hd).
  split; [exact Ht |]. split; [apply due_iff, Ht |].
  split.
  - rewrite processJobs_launched. apply filter_In. split; [exact Hin |].
    apply due_iff, Ht.
  - intros Hi Hmin. apply dmul_nonpositive; [| exact Hi | exact Hmin].
    destruct Hf as [-> | [Hneg _]]; lia.
Qed.

Lemma failed_runs_filter (os : list (Job U * option error)) :
  failed (map evRun os) = map fst (filter hasFailed os).
Proof.
  induction os as [|[j0 [e|]] os IH]; cbn; [reflexivity | | exact IH].
  rewrite IH. reflexivity.
Qed.

(** C5. [processJobs] always returns. It launches one unit for each due job
    of the list and, before it returns, has received one signal per unit,
    the first that unit sends - the wrapped error of the job's action when
    the action failed, nil when it succeeded - whether or not an earlier
    unit failed. It returns nil when no action of a due job failed, and
    otherwise one error made with [errors.New], whose message holds the name
    of every due job whose action failed. *)
Theorem processJobs_waits_and_combines now interval jobs s :
  exists r,
    fst (processJobs now interval jobs s) = Returns r /\
    map fst (fst (outcomes now interval jobs (world s))) =
      filter (due now interval) jobs /\
    launched (since s (snd (processJobs now interval jobs s))) =
      filter (due now interval) jobs /\
    received (since s (snd (processJobs now interval jobs s))) =
      map signalOf (fst (outcomes now interval jobs (world s))) /\
    failed (since s (snd (processJobs now interval jobs s))) =
      map fst (filter hasFailed (fst (outcomes now interval jobs (world s)))) /\
    List.length (received (since s (snd (processJobs now interval jobs s)))) =
      List.length (launched (since s (snd (processJobs now interval jobs s)))) /\
    List.length (errorsOf (received (since s (snd (processJobs now interval jobs s))))) =
      List.length (failed (since s (snd (processJobs now interval jobs s)))) /\
    match filter hasFailed (fst (outcomes now interval jobs (world s))) with
    | [] => r = None
    | failing =>
        exists msg, r = Some (New msg) /\
          Forall (fun o => occursIn (Name (fst o)) msg) failing
    end.
Proof.
  eexists. split; [apply processJobs_result |].
  split; [apply outcomes_due |].
  split; [apply processJobs_launched |].
  split; [apply processJobs_received |].
  rewrite processJobs_received, processJobs_launched, processJobs_failed.
  rewrite <- (outcomes_due now interval jobs (world s)).
  set (os := fst (outcomes now interval jobs (world s))).
  split; [apply failed_runs_filter |].
  split; [rewrite !length_map; reflexivity |].
  split; [apply errorsOf_signals_length |].
  pose proof (failed_runs_filter os) as Hf.
  destruct (filter hasFailed os) as [|o0 fs] eqn:F.
  - apply failed_runs_nil in Hf. rewrite Hf. reflexivity.
  - unfold combined.
    destruct (errorsOf (map signalOf os)) as [|e errs] eqn:E.
    + apply failed_runs_nil in E. rewrite E in Hf. discriminate.
    + cbn [List.length Nat.eqb]. eexists. split; [reflexivity |].
      apply Forall_forall. intros o Ho.
      assert (Hj : In (fst o) (failed (map evRun os)))
        by (rewrite Hf; apply in_map, Ho).
      destruct (failed_runs_error os (fst o) Hj) as [e' He'].
      rewrite E in He'.
      eapply occursIn_trans; [apply Error_Wrap_names |].
      apply fold_Sprintf_holds, He'.
Qed.

End Selection.

Lemma processJobs_due_selection_witness :
  launched (since (initState tt (readings [] 0))
              (snd (processJobs 60 10 [okJob "A" 2; okJob "B" 4]
                      (initState tt (readings [] 0))))) =
    filter (due 60 10) [okJob "A" 2; okJob "B" 4] /\
  (due 60 10 (okJob "A" 2) = true <->
     Truncate 60 (dmul (Frequency (okJob "A" 2)) 10) = 60) /\
  (due 60 10 (okJob "A" 2) = true <->
     exists k, 60 = k * (Frequency (okJob "A" 2) * 10)).
Proof.
  apply (processJobs_due_selection 60 10 [okJob "A" 2; okJob "B" 4]
           (initState tt (readings [] 0)) (okJob "A" 2));
    vm_compute; congruence.
Defined.

Lemma processJobs_nothing_due_witness :
  fst (processJobs 10 10 [okJob "A" 2; okJob "B" 3]
         (initState tt (readings [] 0))) = Returns None /\
  launched (since (initState tt (readings [] 0))
              (snd (processJobs 10 10 [okJob "A" 2; okJob "B" 3]
                      (initState tt (readings [] 0))))) = [] /\
  received (since (initState tt (readings [] 0))
              (snd (processJobs 10 10 [okJob "A" 2; okJob "B" 3]
                      (initState tt (readings [] 0))))) = [].
Proof.
  apply (processJobs_nothing_due 10 10 [okJob "A" 2; okJob "B" 3]
           (initState tt (readings [] 0))).
  intros j [<- | [<- | []]]; reflexivity.
Defined.

Lemma processJobs_nonpositive_period_witness :
  Truncate 10 (dmul (Frequency (okJob "N" (-3))) 10) = 10 /\
  due 10 10 (okJob "N" (-3)) = true /\
  In (okJob "N" (-3))
    (launched (since (initState tt (readings [] 0))
                 (snd (processJobs 10 10 [okJob "A" 2; okJob "N" (-3)]
                         (initState tt (readings [] 0)))))) /\
  (0 < 10 -> minDuration <= Frequency (okJob "N" (-3)) * 10 ->
   dmul (Frequency (okJob "N" (-3))) 10 <= 0).
Proof.
  apply (processJobs_nonpositive_period 10 10 [okJob "A" 2; okJob "N" (-3)]
           (initState tt (readings [] 0)) (okJob "N" (-3))).
  - right. left. reflexivity.
  - right. split; [reflexivity | vm_compute; discriminate].
Defined.

(** ** One unit and its channel *)

Section Units.

Context {U : Type}.

(** What [runJob] sends: nil alone when the action succeeds; the wrapped
    error and then nil when it fails. *)
Lemma runJob_sends (j : Job U) interval (s : State U) :
  fst (runJob j interval s) = sendsOf (j, fst (Exec j (world s))).
Proof.
  destruct (runJob_spec j interval s) as (s' & E & _). rewrite E. reflexivity.
Qed.

Lemma runJob_success_sends_once (j : Job U) interval (s : State U) :
  fst (Exec j (world s)) = None -> fst (runJob j interval s) = [None].
Proof. intros H. rewrite runJob_sends, H. reflexivity. Qed.

Lemma runJob_failure_sends_twice (j : Job U) interval (s : State U) e :
  fst (Exec j (world s)) = Some e ->
  fst (runJob j interval s) =
    [Some (Wrap e ("executing job " ++ Name j)%string); None].
Proof. intros H. rewrite runJob_sends. unfold sendsOf. cbn. rewrite H. reflexivity. Qed.

End Units.

(** C2. For a job whose action fails, one call of [runJob] performs two
    sends on its channel, the wrapped error and then nil, not one;
    [processJobs] receives the first, and the second is never received. *)
Theorem runJob_failing_job_two_sends :
  fst (runJob (failingJob "A" 1 "boom") 10 (initState tt (readings [] 0))) =
    [Some (Wrap (New "boom") "executing job A"); None] /\
  List.length
    (fst (runJob (failingJob "A" 1 "boom") 10 (initState tt (readings [] 0)))) =
    2%nat /\
  received (since (initState tt (readings [] 0))
              (snd (processJobs 10 10 [failingJob "A" 1 "boom"]
                      (initState tt (readings [] 0))))) =
    [Some (Wrap (New "boom") "executing job A")].
Proof. repeat split. Qed.

(** ** The logger *)

Section Logging.

Context {U : Type}.
Implicit Types (s : State U) (jobs : list (Job U)).

Lemma sameButLogs_refl s : sameButLogs s s.
Proof. repeat split. Qed.

Lemma sameButLogs_setLogs s ls1 ls2 :
  sameButLogs (setLogs ls1 s) (setLogs ls2 s).
Proof. repeat split. Qed.

Lemma processJobs_sim now interval jobs s1 s2 :
  sameButLogs s1 s2 ->
  fst (processJobs now interval jobs s1) = fst (processJobs now interval jobs s2) /\
  sameButLogs (snd (processJobs now interval jobs s1))
              (snd (processJobs now interval jobs s2)).
Proof.
  intros (Hw & Hc & Hr & Ht).
  destruct (processJobs_spec now interval jobs s1) as (s1' & E1 & Hw1 & Ht1 & Hc1 & Hr1).
  destruct (processJobs_spec now interval jobs s2) as (s2' & E2 & Hw2 & Ht2 & Hc2 & Hr2).
  rewrite E1, E2. cbn [fst snd]. unfold sameButLogs.
  rewrite Hw1, Hw2, Ht1, Ht2, Hc1, Hc2, Hr1, Hr2, Hw, Hc, Hr, Ht.
  repeat split.
Qed.

Lemma timeNow_sim s1 s2 :
  sameButLogs s1 s2 ->
  fst (timeNow s1) = fst (timeNow s2) /\
  sameButLogs (snd (timeNow s1)) (snd (timeNow s2)).
Proof.
  intros (Hw & Hc & Hr & Ht). unfold timeNow, sameButLogs. cbn.
  rewrite Hw, Hc, Hr, Ht. repeat split.
Qed.

Lemma catchup_sim fuel interval now jobs :
  forall lastElapsed elapsed totalInterval s1 s2,
  sameButLogs s1 s2 ->
  fst (catchup fuel interval now jobs lastElapsed elapsed totalInterval s1) =
  fst (catchup fuel interval now jobs lastElapsed elapsed totalInterval s2) /\
  sameButLogs
    (snd (catchup fuel interval now jobs lastElapsed elapsed totalInterval s1))
    (snd (catchup fuel interval now jobs lastElapsed elapsed totalInterval s2)).
Proof.
  induction fuel as [|fuel IH]; intros lastElapsed elapsed totalInterval s1 s2 H;
    cbn [catchup]; destruct (elapsed >? totalInterval); try (split; [reflexivity | exact H]).
  destruct (processJobs_sim (Add now totalInterval) interval jobs s1 s2 H) as [Er Hs].
  destruct (processJobs (Add now totalInterval) interval jobs s1) as [r1 s1'].
  destruct (processJobs (Add now totalInterval) interval jobs s2) as [r2 s2'].
  cbn [fst snd] in Er, Hs. subst r2.
  destruct r1 as [[e|]|]; try (split; [reflexivity | exact Hs]).
  destruct (timeNow_sim s1' s2' Hs) as [Et Hs'].
  destruct (timeNow s1') as [t1 s1''], (timeNow s2') as [t2 s2''].
  cbn [fst snd] in Et, Hs'. subst t2.
  assert (Hm : maxKetchups (world s1'') = maxKetchups (world s2''))
    by (destruct Hs' as [-> _]; reflexivity).
  rewrite Hm.
  destruct (totalInterval >? dmul interval (maxKetchups (world s2''))).
  - split; [reflexivity | exact Hs'].
  - apply IH, Hs'.
Qed.

Lemma iteration_sim fuel interval (getJobs : JobLoader U) s1 s2 :
  sameButLogs s1 s2 ->
  fst (iteration fuel interval getJobs s1) = fst (iteration fuel interval getJobs s2) /\
  sameButLogs (snd (iteration fuel interval getJobs s1))
              (snd (iteration fuel interval getJobs s2)).
Proof.
  intros H. unfold iteration.
  destruct (timeNow_sim s1 s2 H) as [Et Hs].
  destruct (timeNow s1) as [t1 s1a], (timeNow s2) as [t2 s2a].
  cbn [fst snd] in Et, Hs. subst t2.
  assert (Hw : world s1a = world s2a) by (destruct Hs as [-> _]; reflexivity).
  rewrite Hw. destruct (getJobs (world s2a)) as [[jobs err] w].
  assert (Hs2 : sameButLogs (emit EvLoad (setWorld w s1a))
                            (emit EvLoad (setWorld w s2a))).
  { destruct Hs as (_ & Hc & Hr & Ht). unfold sameButLogs. cbn.
    rewrite Hc, Hr, Ht. repeat split. }
  destruct err as [e|]; [split; [reflexivity | exact Hs2] |].
  destruct (processJobs_sim (Truncate t1 interval) interval jobs _ _ Hs2) as [Er Hs3].
  destruct (processJobs (Truncate t1 interval) interval jobs
              (emit EvLoad (setWorld w s1a))) as [r1 s1b].
  destruct (processJobs (Truncate t1 interval) interval jobs
              (emit EvLoad (setWorld w s2a))) as [r2 s2b].
  cbn [fst snd] in Er, Hs3. subst r2.
  destruct r1 as [[e|]|]; try (split; [reflexivity | exact Hs3]).
  destruct (timeNow_sim s1b s2b Hs3) as [Et Hs4].
  destruct (timeNow s1b) as [t1' s1c], (timeNow s2b) as [t2' s2c].
  cbn [fst snd] in Et, Hs4. subst t2'.
  match goal with |- context [catchup ?f ?i ?n ?j ?l ?e ?t s1c] =>
    destruct (catchup_sim f i n j l e t s1c s2c Hs4) as [Ec Hs5];
    destruct (catchup f i n j l e t s1c) as [x1 s1d];
    destruct (catchup f i n j l e t s2c) as [x2 s2d]
  end.
  cbn [fst snd] in Ec, Hs5. subst x2.
  destruct x1; try (split; [reflexivity | exact Hs5]).
  split; [reflexivity |].
  destruct Hs5 as (Hw5 & Hc5 & Hr5 & Ht5). unfold sameButLogs. cbn.
  rewrite Hw5, Hc5, Hr5, Ht5. repeat split.
Qed.

Lemma Run_sim fuel interval (getJobs : JobLoader U) :
  forall s1 s2,
  sameButLogs s1 s2 ->
  fst (Run fuel interval getJobs s1) = fst (Run fuel interval getJobs s2) /\
  sameButLogs (snd (Run fuel interval getJobs s1))
              (snd (Run fuel interval getJobs s2)).
Proof.
  induction fuel as [|fuel IH]; intros s1 s2 H; cbn [Run];
    [split; [reflexivity | exact H] |].
  destruct (iteration_sim fuel interval getJobs s1 s2 H) as [Ei Hs].
  destruct (iteration fuel interval getJobs s1) as [o1 s1'].
  destruct (iteration fuel interval getJobs s2) as [o2 s2'].
  cbn [fst snd] in Ei, Hs. subst o2.
  destruct o1 as [o|]; [split; [reflexivity | exact Hs] | apply IH, Hs].
Qed.

(** C9. With no logger set, [debug], [debugf] and [logf] leave everything
    as it is; and whatever logger is set, if any, and whatever it wrote,
    [processJobs] and [Run] return the same value and leave the same world,
    clock and trace of events. *)
Theorem logging_never_affects_results :
  (forall (a : list arg) (f : string) (k : Sink),
     Log.debug a {| lg := None; sink := k |} = {| lg := None; sink := k |} /\
     Log.debugf f a {| lg := None; sink := k |} = {| lg := None; sink := k |} /\
     Log.logf f a {| lg := None; sink := k |} = {| lg := None; sink := k |}) /\
  (forall now interval jobs s (ls1 ls2 : Logs),
     fst (processJobs now interval jobs (setLogs ls1 s)) =
     fst (processJobs now interval jobs (setLogs ls2 s)) /\
     sameButLogs (snd (processJobs now interval jobs (setLogs ls1 s)))
                 (snd (processJobs now interval jobs (setLogs ls2 s)))) /\
  (forall fuel interval (getJobs : JobLoader U) s (ls1 ls2 : Logs),
     fst (Run fuel interval getJobs (setLogs ls1 s)) =
     fst (Run fuel interval getJobs (setLogs ls2 s)) /\
     sameButLogs (snd (Run fuel interval getJobs (setLogs ls1 s)))
                 (snd (Run fuel interval getJobs (setLogs ls2 s)))).
Proof.
  split; [intros; repeat split |].
  split.
  - intros. apply processJobs_sim, sameButLogs_setLogs.
  - intros. apply Run_sim, sameButLogs_setLogs.
Qed.

End Logging.

(** ** The tick driver, step by step *)

Section Driver.

Context {U : Type}.
Implicit Types (s : State U) (jobs : list (Job U)) (getJobs : JobLoader U).

(** The events of a call of [processJobs]: its own tick, then no other tick
    and no call of the loader. *)
Lemma processJobs_events now interval jobs s :
  exists r s' evs,
    processJobs now interval jobs s = (Returns r, s') /\
    trace s' = trace s ++ EvTick now jobs :: evs /\
    ticks evs = [] /\ loads evs = O.
Proof.
  destruct (processJobs_spec now interval jobs s) as (s' & E & _ & Ht & _).
  eexists _, s', _. split; [exact E |]. split; [exact Ht |].
  rewrite ticks_app, loads_app, ticks_runs, ticks_recvs, loads_runs, loads_recvs.
  split; reflexivity.
Qed.

Lemma timeNow_eq s :
  timeNow s = (clock s (reads s), snd (timeNow s)) /\
  world (snd (timeNow s)) = world s /\
  trace (snd (timeNow s)) = trace s ++ [EvNow (clock s (reads s))].
Proof. repeat split. Qed.

(** The loop is left at once when its condition fails. *)
Lemma catchup_stop fuel interval now jobs lastElapsed elapsed totalInterval s :
  (elapsed >? totalInterval) = false ->
  catchup fuel interval now jobs lastElapsed elapsed totalInterval s =
    (Done lastElapsed, s).
Proof. intros H. destruct fuel; cbn [catchup]; rewrite H; reflexivity. Qed.

(** One round that processes its tick without error. *)
Lemma catchup_round fuel interval now jobs lastElapsed elapsed totalInterval s s1 :
  (elapsed >? totalInterval) = true ->
  processJobs (Add now totalInterval) interval jobs s = (Returns None, s1) ->
  catchup (S fuel) interval now jobs lastElapsed elapsed totalInterval s =
    if totalInterval >? dmul interval (maxKetchups (world s1))
    then (Fail errMaxCatchups, snd (timeNow s1))
    else catchup fuel interval now jobs
           (Sub (fst (timeNow s1)) (Add now totalInterval))
           (dadd elapsed (Sub (fst (timeNow s1)) (Add now totalInterval)))
           (dadd totalInterval interval) (snd (timeNow s1)).
Proof. intros H Hp. cbn [catchup]. rewrite H, Hp. reflexivity. Qed.

(** The events of the catch-up loop: some rounds, each with one call of
    [processJobs] on the same job list, at budgets that grow by [interval];
    no call of the loader. *)
Lemma catchup_events fuel interval now jobs :
  forall lastElapsed elapsed totalInterval s,
  exists evs n,
    trace (snd (catchup fuel interval now jobs lastElapsed elapsed totalInterval s)) =
      trace s ++ evs /\
    loads evs = O /\
    ticks evs = catchupTicks now interval jobs totalInterval n.
Proof.
  induction fuel as [|fuel IH]; intros lastElapsed elapsed totalInterval s;
    cbn [catchup]; destruct (elapsed >? totalInterval);
    try solve [exists [], O; rewrite app_nil_r; repeat split].
  destruct (processJobs_events (Add now totalInterval) interval jobs s)
    as (r & s1 & evs1 & E & Ht & Hk & Hl).
  rewrite E.
  destruct r as [err|].
  { exists (EvTick (Add now totalInterval) jobs :: evs1), 1%nat.
    cbn. rewrite Hk, Hl. repeat split. exact Ht. }
  destruct (timeNow_eq s1) as (En & _ & Htn). rewrite En.
  destruct (totalInterval >? dmul interval (maxKetchups (world (snd (timeNow s1))))).
  { exists ((EvTick (Add now totalInterval) jobs :: evs1) ++
            [EvNow (clock s1 (reads s1))]), 1%nat.
    cbn [snd]. rewrite Htn, Ht, ticks_app, loads_app, <- !app_assoc.
    cbn. rewrite Hk, Hl. repeat split. }
  match goal with |- context [catchup fuel _ _ _ ?l ?e ?t ?st] =>
    destruct (IH l e t st) as (evs2 & n & Ht2 & Hl2 & Hk2) end.
  exists ((EvTick (Add now totalInterval) jobs :: evs1) ++
          [EvNow (clock s1 (reads s1))] ++ evs2), (S n).
  rewrite Ht2, Htn, Ht, !ticks_app, !loads_app, <- !app_assoc.
  cbn. rewrite Hk, Hl, Hk2, Hl2. repeat split.
Qed.

(** A round that is entered starts with the call of [processJobs] for
    [now + totalInterval]. *)
Lemma catchup_first fuel interval now jobs lastElapsed elapsed totalInterval s :
  (elapsed >? totalInterval) = true ->
  exists evs,
    since s (snd (catchup (S fuel) interval now jobs lastElapsed elapsed
                    totalInterval s)) =
      EvTick (Add now totalInterval) jobs :: evs.
Proof.
  intros H. cbn [catchup]. rewrite H.
  destruct (processJobs_events (Add now totalInterval) interval jobs s)
    as (r & s1 & evs1 & E & Ht & _).
  rewrite E.
  destruct r as [err|].
  { exists evs1. apply since_app, Ht. }
  destruct (timeNow_eq s1) as (En & _ & Htn). rewrite En.
  destruct (totalInterval >? dmul interval (maxKetchups (world (snd (timeNow s1))))).
  { eexists. apply since_app. cbn [snd]. rewrite Htn, Ht, <- app_assoc.
    reflexivity. }
  match goal with |- context [catchup fuel ?i ?n ?j ?l ?e ?t ?st] =>
    destruct (catchup_events fuel i n j l e t st) as (evs2 & k & Ht2 & _) end.
  eexists. apply since_app. rewrite Ht2, Htn, Ht, <- !app_assoc. reflexivity.
Qed.

(** The budgets of the rounds, started from a multiple of [interval]. *)
Lemma catchupTicks_multiples now interval jobs (n : nat) :
  forall k0 : nat,
  catchupTicks now interval jobs (wrap64 (Z.of_nat k0 * interval)) n =
    map (fun k => (Add now (wrap64 (Z.of_nat k * interval)), jobs)) (seq k0 n).
Proof.
  induction n as [|n IH]; intros k0; cbn [catchupTicks seq map]; [reflexivity |].
  f_equal. unfold dadd. rewrite wrap64_add_l.
  replace (Z.of_nat k0 * interval + interval) with (Z.of_nat (S k0) * interval)
    by lia.
  apply IH.
Qed.

(** The events of one pass through the body of the outer loop. *)
Lemma iteration_events fuel interval getJobs s :
  exists evs n,
    trace (snd (iteration fuel interval getJobs s)) = trace s ++ evs /\
    loads evs = 1%nat /\
    ticks evs =
      match snd (fst (getJobs (world s))) with
      | Some _ => []
      | None =>
          (Truncate (clock s (reads s)) interval, fst (fst (getJobs (world s)))) ::
          catchupTicks (Truncate (clock s (reads s)) interval) interval
            (fst (fst (getJobs (world s)))) interval n
      end.
Proof.
  unfold iteration.
  destruct (timeNow_eq s) as (En & Hw & Htn). rewrite En, Hw.
  destruct (getJobs (world s)) as [[jobs err] w]. cbn [fst snd].
  set (s2 := emit EvLoad (setWorld w (snd (timeNow s)))).
  assert (Ht2 : trace s2 = trace s ++ [EvNow (clock s (reads s)); EvLoad]).
  { subst s2. cbn. rewrite <- app_assoc. reflexivity. }
  destruct err as [e|].
  { exists [EvNow (clock s (reads s)); EvLoad], O. cbn [snd].
    rewrite Ht2. repeat split. }
  set (now := Truncate (clock s (reads s)) interval).
  destruct (processJobs_events now interval jobs s2)
    as (r & s3 & evs3 & E & Ht3 & Hk3 & Hl3).
  rewrite E.
  destruct r as [err|].
  { exists ([EvNow (clock s (reads s)); EvLoad] ++ EvTick now jobs :: evs3), O.
    cbn [snd]. rewrite Ht3, Ht2, <- app_assoc. cbn. rewrite Hk3, Hl3.
    repeat split. }
  destruct (timeNow_eq s3) as (En3 & _ & Htn3). rewrite En3.
  match goal with |- context [catchup fuel ?i ?n ?j ?l ?e ?t ?st] =>
    destruct (catchup_events fuel i n j l e t st) as (evs5 & k & Ht5 & Hl5 & Hk5);
    destruct (catchup fuel i n j l e t st) as [x s5]
  end.
  cbn [snd] in Ht5.
  assert (Hall : trace s5 = trace s ++
            ([EvNow (clock s (reads s)); EvLoad] ++ EvTick now jobs :: evs3 ++
             [EvNow (clock s3 (reads s3))] ++ evs5)).
  { rewrite Ht5, Htn3, Ht3, Ht2, <- !app_assoc. reflexivity. }
  set (evs := [EvNow (clock s (reads s)); EvLoad] ++ EvTick now jobs :: evs3 ++
               [EvNow (clock s3 (reads s3))] ++ evs5) in Hall.
  assert (Hl : loads evs = 1%nat).
  { subst evs. cbn. rewrite loads_app. cbn. rewrite Hl3, Hl5. reflexivity. }
  assert (Hk : ticks evs = (now, jobs) :: catchupTicks now interval jobs interval k).
  { subst evs. cbn. rewrite ticks_app. cbn. rewrite Hk3, Hk5. reflexivity. }
  destruct x; cbn [snd].
  - exists (evs ++ [EvSleep (dsub interval lastElapsed)]), k.
    cbn [timeSleep emit trace]. rewrite Hall, <- app_assoc.
    rewrite loads_app, ticks_app, Hl, Hk. cbn. rewrite app_nil_r.
    repeat split.
  - exists evs, k. repeat split; assumption.
  - exists evs, k. repeat split; assumption.
  - exists evs, k. repeat split; assumption.
Qed.

End Driver.

(** ** The tick driver: the catch-up loop *)

Section CatchUp.

Context {U : Type}.
Implicit Types (s : State U) (jobs : list (Job U)) (getJobs : JobLoader U).

(** One test of the loop. The loop goes on exactly when [elapsed] exceeds
    [totalInterval]: with [elapsed] at most [totalInterval] it is left with
    nothing done; otherwise the tick at [now + totalInterval] is processed,
    and after a round that neither fails nor reaches the limit the next
    test is made on [elapsed] plus the [lastElapsed] just measured, against
    [totalInterval] plus [interval]. *)
Lemma catchup_continues_iff_elapsed_exceeds
    fuel interval now jobs lastElapsed elapsed totalInterval s s1 :
  processJobs (Add now totalInterval) interval jobs s = (Returns None, s1) ->
  totalInterval <= dmul interval (maxKetchups (world s1)) ->
  (elapsed <= totalInterval ->
     catchup (S fuel) interval now jobs lastElapsed elapsed totalInterval s =
       (Done lastElapsed, s)) /\
  (elapsed > totalInterval ->
     (exists evs,
        since s (snd (catchup (S fuel) interval now jobs lastElapsed elapsed
                        totalInterval s)) =
          EvTick (Add now totalInterval) jobs :: evs) /\
     catchup (S fuel) interval now jobs lastElapsed elapsed totalInterval s =
       catchup fuel interval now jobs
         (Sub (clock s1 (reads s1)) (Add now totalInterval))
         (dadd elapsed (Sub (clock s1 (reads s1)) (Add now totalInterval)))
         (dadd totalInterval interval) (snd (timeNow s1))).
Proof.
  intros Hp Hmax. split.
  - intros H. apply catchup_stop.
    destruct (Z.gtb_spec elapsed totalInterval); [lia | reflexivity].
  - intros H.
    assert (Hgt : (elapsed >? totalInterval) = true)
      by (destruct (Z.gtb_spec elapsed totalInterval); [reflexivity | lia]).
    split; [apply catchup_first, Hgt |].
    rewrite (catchup_round _ _ _ _ _ _ _ _ _ Hgt Hp).
    destruct (Z.gtb_spec totalInterval (dmul interval (maxKetchups (world s1))));
      [lia | reflexivity].
Qed.

(** The rule of lines 57 to 59: after the tick of a round is processed and
    [lastElapsed] measured again, [Run] gives up when the [totalInterval] of
    this round, not yet advanced, exceeds [interval * maxKetchups]. *)
Lemma catchup_ceiling fuel interval now jobs lastElapsed elapsed totalInterval s s1 :
  elapsed > totalInterval ->
  processJobs (Add now totalInterval) interval jobs s = (Returns None, s1) ->
  totalInterval > dmul interval (maxKetchups (world s1)) ->
  catchup (S fuel) interval now jobs lastElapsed elapsed totalInterval s =
    (Fail errMaxCatchups, snd (timeNow s1)).
Proof.
  intros H Hp Hmax.
  assert (Hgt : (elapsed >? totalInterval) = true)
    by (destruct (Z.gtb_spec elapsed totalInterval); [reflexivity | lia]).
  rewrite (catchup_round _ _ _ _ _ _ _ _ _ Hgt Hp).
  destruct (Z.gtb_spec totalInterval (dmul interval (maxKetchups (world s1))));
    [reflexivity | lia].
Qed.

(** C8. [maxKetchups] is 20 when the process starts, [SetMaxCatchup(m)]
    makes it [m], and the test of a catch-up round reads it in the world as
    the tick of that round left it: a call of [SetMaxCatchup] made meanwhile
    decides this very test. *)
Theorem maxKetchups_read_at_each_check
    fuel interval now jobs lastElapsed elapsed totalInterval s s1 :
  elapsed > totalInterval ->
  processJobs (Add now totalInterval) interval jobs s = (Returns None, s1) ->
  (forall (u : U) (clk : nat -> Time), maxKetchups (world (initState u clk)) = 20) /\
  (forall (m : Z) (w : World U), maxKetchups (SetMaxCatchup m w) = m) /\
  catchup (S fuel) interval now jobs lastElapsed elapsed totalInterval s =
    if totalInterval >? dmul interval (maxKetchups (world s1))
    then (Fail errMaxCatchups, snd (timeNow s1))
    else catchup fuel interval now jobs
           (Sub (fst (timeNow s1)) (Add now totalInterval))
           (dadd elapsed (Sub (fst (timeNow s1)) (Add now totalInterval)))
           (dadd totalInterval interval) (snd (timeNow s1)).
Proof.
  intros H Hp. split; [reflexivity |]. split; [reflexivity |].
  apply catchup_round; [| exact Hp].
  destruct (Z.gtb_spec elapsed totalInterval); [reflexivity | lia].
Qed.

(** C6. One pass through the body of the outer loop calls the loader once;
    the list it returned goes to every call of [processJobs] of the pass:
    the one for [now], then one per catch-up round, for [now + interval],
    [now + 2 * interval] and so on (the multiples as an int64 holds
    them). When the loader fails nothing is processed. *)
Theorem iteration_loads_once_and_reuses_jobs fuel interval getJobs s :
  minDuration <= interval <= maxDuration ->
  exists n,
    loads (since s (snd (iteration fuel interval getJobs s))) = 1%nat /\
    ticks (since s (snd (iteration fuel interval getJobs s))) =
      match snd (fst (getJobs (world s))) with
      | Some _ => []
      | None =>
          map (fun k =>
                 (Add (Truncate (clock s (reads s)) interval)
                      (wrap64 (Z.of_nat k * interval)),
                  fst (fst (getJobs (world s)))))
              (seq 0 (S n))
      end.
Proof.
  intros Hi.
  destruct (iteration_events fuel interval getJobs s) as (evs & n & Ht & Hl & Hk).
  exists n. rewrite (since_app _ _ _ Ht), Hl, Hk. split; [reflexivity |].
  destruct (snd (fst (getJobs (world s)))); [reflexivity |].
  cbn [seq map]. f_equal.
  - f_equal. unfold Add. cbn. lia.
  - rewrite <- catchupTicks_multiples. f_equal.
    rewrite wrap64_small; lia.
Qed.

End CatchUp.

Lemma catchup_continues_iff_elapsed_exceeds_witness :
  (23 <= 20 ->
     catchup 3 10 100 ([] : list (Job unit)) 8 23 20
       (initState tt (readings [121] 200)) =
       (Done 8, initState tt (readings [121] 200))) /\
  (23 > 20 ->
     (exists evs,
        since (initState tt (readings [121] 200))
          (snd (catchup 3 10 100 ([] : list (Job unit)) 8 23 20
                  (initState tt (readings [121] 200)))) =
          EvTick (Add 100 20) [] :: evs) /\
     catchup 3 10 100 ([] : list (Job unit)) 8 23 20
       (initState tt (readings [121] 200)) =
       catchup 2 10 100 []
         (Sub 121 (Add 100 20)) (dadd 23 (Sub 121 (Add 100 20))) (dadd 20 10)
         (snd (timeNow (snd (processJobs (Add 100 20) 10 ([] : list (Job unit))
                               (initState tt (readings [121] 200))))))).
Proof.
  apply (catchup_continues_iff_elapsed_exceeds 2 10 100 ([] : list (Job unit))
           8 23 20 (initState tt (readings [121] 200))
           (snd (processJobs (Add 100 20) 10 ([] : list (Job unit))
                   (initState tt (readings [121] 200))))).
  - reflexivity.
  - vm_compute. discriminate.
Defined.

Lemma maxKetchups_read_at_each_check_witness :
  (forall (u : unit) (clk : nat -> Time), maxKetchups (world (initState u clk)) = 20) /\
  (forall (m : Z) (w : World unit), maxKetchups (SetMaxCatchup m w) = m) /\
  catchup 3 10 100 [limitJob "L" 1 0] 15 15 10 (initState tt (readings [118] 200)) =
    (Fail errMaxCatchups,
     snd (timeNow (snd (processJobs (Add 100 10) 10 [limitJob "L" 1 0]
                          (initState tt (readings [118] 200)))))).
Proof.
  apply (maxKetchups_read_at_each_check 2 10 100 [limitJob "L" 1 0] 15 15 10
           (initState tt (readings [118] 200))
           (snd (processJobs (Add 100 10) 10 [limitJob "L" 1 0]
                   (initState tt (readings [118] 200))))).
  - reflexivity.
  - reflexivity.
Defined.

Lemma iteration_loads_once_and_reuses_jobs_witness :
  exists n,
    loads (since (initState tt (readings [100; 115; 118; 121] 200))
             (snd (iteration 5 10 (fixedJobs [okJob "A" 1])
                     (initState tt (readings [100; 115; 118; 121] 200))))) = 1%nat /\
    ticks (since (initState tt (readings [100; 115; 118; 121] 200))
             (snd (iteration 5 10 (fixedJobs [okJob "A" 1])
                     (initState tt (readings [100; 115; 118; 121] 200))))) =
      map (fun k => (Add (Truncate 100 10) (wrap64 (Z.of_nat k * 10)),
                     [okJob "A" 1]))
          (seq 0 (S n)).
Proof.
  apply (iteration_loads_once_and_reuses_jobs 5 10 (fixedJobs [okJob "A" 1])
           (initState tt (readings [100; 115; 118; 121] 200))).
  vm_compute. split; discriminate.
Defined.


(** C4. With [maxKetchups] set to 1 and an interval of 10, the round for
    tick 110 advances [totalInterval] to 20, past 10 * 1; [Run] does not
    return then: it processes the catch-up tick 120 as well, and returns the
    error only after it. *)
Theorem Run_processes_a_tick_past_the_limit :
  fst (Run 5 10 (fixedJobs [])
         (setWorld (SetMaxCatchup 1 (world (initState tt (readings [] 0))))
            (initState tt (readings [100; 115; 118; 121] 200)))) =
    Returned errMaxCatchups /\
  trace (snd (Run 5 10 (fixedJobs [])
         (setWorld (SetMaxCatchup 1 (world (initState tt (readings [] 0))))
            (initState tt (readings [100; 115; 118; 121] 200))))) =
    [EvNow 100; EvLoad; EvTick 100 []; EvNow 115; EvTick 110 []; EvNow 118;
     EvTick 120 []; EvNow 121] /\
  (dadd 10 10 >? dmul 10 1) = true /\
  Temporary errMaxCatchups = Some true.
Proof. repeat split. Qed.

(** * More of the code *)

(** ** The combined error *)

Lemma append_nil_r (a : string) : (a ++ "")%string = a.
Proof. induction a as [|x a IH]; cbn; [|rewrite IH]; reflexivity. Qed.

Lemma fold_Sprintf_messages (errs : list error) :
  forall acc : string,
    fold_left Sprintf_s_s errs acc = (acc ++ messages errs)%string.
Proof.
  induction errs as [|e errs IH]; intros acc; cbn.
  - symmetry. apply append_nil_r.
  - rewrite IH. unfold Sprintf_s_s. rewrite !append_assoc. reflexivity.
Qed.

Section Combined.

Context {U : Type}.
Implicit Types (s : State U) (j : Job U) (jobs : list (Job U)).

Lemma failing_outcome_error (os : list (Job U * option error)) j e :
  In (j, Some e) os ->
  In (Wrap e ("executing job " ++ Name j)%string) (errorsOf (map signalOf os)).
Proof.
  induction os as [|[j' [e'|]] os IH]; cbn; [tauto | |].
  - intros [H | H]; [inversion H; subst; left; reflexivity | right; apply IH, H].
  - intros [H | H]; [discriminate H | apply IH, H].
Qed.

(** X3. What [processJobs] returns for the errors of a tick: nil when no
    due job failed; otherwise one [errors.New] whose message is, for each
    failing due job in the order of the job list, a comma, a space and
    "executing job NAME: CAUSE" - so the message starts with a comma. The
    order is that of the list whatever the order of completion, as the
    channels are read in launch order. *)
Theorem processJobs_error_message now interval jobs s :
  fst (processJobs now interval jobs s) =
    Returns
      match errorsOf (map signalOf (fst (outcomes now interval jobs (world s)))) with
      | [] => None
      | e :: errs => Some (New (", " ++ Error e ++ messages errs)%string)
      end /\
  errorsOf (map signalOf (fst (outcomes now interval jobs (world s)))) =
    errorsOf (received (since s (snd (processJobs now interval jobs s)))).
Proof.
  rewrite processJobs_result, processJobs_received. split; [| reflexivity].
  unfold combined.
  destruct (errorsOf _) as [|e errs]; [reflexivity |].
  cbn [List.length Nat.eqb]. rewrite fold_Sprintf_messages. reflexivity.
Qed.

End Combined.

(** ** One pass of the outer loop *)

Section Passes.

Context {U : Type}.
Implicit Types (s : State U) (j : Job U) (jobs : list (Job U))
  (getJobs : JobLoader U).

Lemma sleeps_app (a b : list (Event U)) : sleeps (a ++ b) = sleeps a ++ sleeps b.
Proof.
  induction a as [|e a IH]; [reflexivity |].
  destruct e; cbn; rewrite IH; reflexivity.
Qed.

Lemma sleeps_runs (os : list (Job U * option error)) : sleeps (map evRun os) = [].
Proof. induction os as [|o os IH]; cbn; [reflexivity | exact IH]. Qed.

Lemma sleeps_recvs (os : list (Job U * option error)) : sleeps (map evRecv os) = [].
Proof. induction os as [|o os IH]; cbn; [reflexivity | exact IH]. Qed.

(** A pass whose loader call succeeds. *)
Lemma iteration_loaded fuel interval getJobs s jobs w :
  getJobs (world s) = (jobs, None, w) ->
  iteration fuel interval getJobs s =
    match processJobs (Truncate (clock s (reads s)) interval) interval jobs
            (loaded w s) with
    | (Blocks, s3) => (Some Hung, s3)
    | (Returns (Some e), s3) => (Some (Returned e), s3)
    | (Returns None, s3) =>
        match catchup fuel interval (Truncate (clock s (reads s)) interval) jobs
                (Sub (clock s3 (reads s3)) (Truncate (clock s (reads s)) interval))
                (Sub (clock s3 (reads s3)) (Truncate (clock s (reads s)) interval))
                interval (snd (timeNow s3)) with
        | (Fail e, s5) => (Some (Returned e), s5)
        | (Stuck, s5) => (Some Hung, s5)
        | (NoFuel, s5) => (Some Spinning, s5)
        | (Done lastElapsed', s5) =>
            (None, timeSleep (dsub interval lastElapsed') s5)
        end
    end.
Proof.
  intros H. unfold iteration, loaded.
  change (timeNow s) with (clock s (reads s), snd (timeNow s)).
  cbv iota beta.
  change (world (snd (timeNow s))) with (world s). rewrite H.
  destruct (processJobs _ interval jobs _) as [[[e|]|] s3]; reflexivity.
Qed.

(** What the call of [processJobs] for the base tick comes to. *)
Lemma processJobs_loaded now interval jobs (w : World U) s :
  exists s3,
    processJobs now interval jobs (loaded w s) =
      (Returns (combined (errorsOf (map signalOf
                  (fst (outcomes now interval jobs w))))), s3) /\
    world s3 = snd (outcomes now interval jobs w) /\
    trace s3 = trace s ++
      [EvNow (clock s (reads s)); EvLoad; EvTick now jobs] ++
      map evRun (fst (outcomes now interval jobs w)) ++
      map evRecv (fst (outcomes now interval jobs w)) /\
    clock s3 = clock s /\ reads s3 = S (reads s).
Proof.
  destruct (processJobs_spec now interval jobs (loaded w s))
    as (s3 & E & Hw & Ht & Hc & Hr).
  exists s3. cbn in E, Hw, Ht, Hc, Hr.
  rewrite E, Hw, Ht, Hc, Hr, <- !app_assoc. repeat split.
Qed.

(** X1. When the loader fails, [Run] returns at once the loader's error
    wrapped with "getting jobs" - the message is "getting jobs: CAUSE" -
    after one reading of the clock and that one call of the loader: no tick
    is processed and the jobs returned with the error, if any, are not
    run. *)
Theorem Run_loader_failure fuel interval getJobs s e :
  snd (fst (getJobs (world s))) = Some e ->
  fst (Run (S fuel) interval getJobs s) = Returned (Wrap e "getting jobs") /\
  Error (Wrap e "getting jobs") = ("getting jobs: " ++ Error e)%string /\
  since s (snd (Run (S fuel) interval getJobs s)) =
    [EvNow (clock s (reads s)); EvLoad] /\
  world (snd (Run (S fuel) interval getJobs s)) = snd (getJobs (world s)).
Proof.
  intros H. cbn [Run]. unfold iteration.
  change (timeNow s) with (clock s (reads s), snd (timeNow s)).
  cbv iota beta.
  change (world (snd (timeNow s))) with (world s).
  destruct (getJobs (world s)) as [[jobs err] w]. cbn in H. subst err.
  cbn [fst snd]. repeat split.
  apply since_app. cbn. rewrite <- app_assoc. reflexivity.
Qed.

(** X2. When the loader succeeds and the action of a job due at the base
    tick fails, [Run] returns the combined error of that tick, whose message
    holds the job's name; the base tick is the only tick processed, there is
    no catch-up and no sleep. *)
Theorem Run_job_failure fuel interval getJobs s jobs w j e :
  getJobs (world s) = (jobs, None, w) ->
  In (j, Some e)
     (fst (outcomes (Truncate (clock s (reads s)) interval) interval jobs w)) ->
  exists msg,
    fst (Run (S fuel) interval getJobs s) = Returned (New msg) /\
    occursIn (Name j) msg /\
    ticks (since s (snd (Run (S fuel) interval getJobs s))) =
      [(Truncate (clock s (reads s)) interval, jobs)] /\
    sleeps (since s (snd (Run (S fuel) interval getJobs s))) = [].
Proof.
  intros Hl Hin. cbn [Run]. rewrite (iteration_loaded _ _ _ _ _ _ Hl).
  set (now := Truncate (clock s (reads s)) interval) in *.
  destruct (processJobs_loaded now interval jobs w s) as (s3 & E & _ & Ht & _).
  rewrite E. apply failing_outcome_error in Hin.
  unfold combined.
  destruct (errorsOf (map signalOf (fst (outcomes now interval jobs w))))
    as [|e0 errs] eqn:Eerrs; [destruct Hin |].
  cbn [List.length Nat.eqb fst snd]. eexists. split; [reflexivity |].
  split.
  - eapply occursIn_trans; [apply Error_Wrap_names |].
    apply fold_Sprintf_holds, Hin.
  - rewrite (since_app _ _ _ Ht). cbn.
    rewrite ticks_app, ticks_runs, ticks_recvs.
    rewrite sleeps_app, sleeps_runs, sleeps_recvs. split; reflexivity.
Qed.

(** X4. When the loader succeeds, no due job fails and the time measured
    after the base tick does not exceed the interval, the pass makes no
    catch-up round: it processes the base tick alone, sleeps
    [interval - lastElapsed] and the outer loop goes round again. *)
Theorem iteration_without_catchup fuel interval getJobs s jobs w :
  getJobs (world s) = (jobs, None, w) ->
  errorsOf (map signalOf
    (fst (outcomes (Truncate (clock s (reads s)) interval) interval jobs w))) = [] ->
  Sub (clock s (S (reads s))) (Truncate (clock s (reads s)) interval) <= interval ->
  fst (iteration fuel interval getJobs s) = None /\
  ticks (since s (snd (iteration fuel interval getJobs s))) =
    [(Truncate (clock s (reads s)) interval, jobs)] /\
  sleeps (since s (snd (iteration fuel interval getJobs s))) =
    [dsub interval
       (Sub (clock s (S (reads s))) (Truncate (clock s (reads s)) interval))] /\
  Run (S fuel) interval getJobs s =
    Run fuel interval getJobs (snd (iteration fuel interval getJobs s)).
Proof.
  intros Hl Hok Hle.
  assert (Hfst : fst (iteration fuel interval getJobs s) = None /\
                 ticks (since s (snd (iteration fuel interval getJobs s))) =
                   [(Truncate (clock s (reads s)) interval, jobs)] /\
                 sleeps (since s (snd (iteration fuel interval getJobs s))) =
                   [dsub interval
                      (Sub (clock s (S (reads s)))
                           (Truncate (clock s (reads s)) interval))]).
  { rewrite (iteration_loaded _ _ _ _ _ _ Hl).
    set (now := Truncate (clock s (reads s)) interval) in *.
    destruct (processJobs_loaded now interval jobs w s)
      as (s3 & E & _ & Ht & Hc & Hr).
    rewrite E, Hok. cbn [combined List.length Nat.eqb].
    rewrite Hc, Hr, catchup_stop
      by (destruct (Z.gtb_spec (Sub (clock s (S (reads s))) now) interval);
          [lia | reflexivity]).
    cbn [fst snd]. split; [reflexivity |].
    assert (Hall : trace (timeSleep
                     (dsub interval (Sub (clock s (S (reads s))) now))
                     (snd (timeNow s3))) =
              trace s ++
              ([EvNow (clock s (reads s)); EvLoad; EvTick now jobs] ++
               map evRun (fst (outcomes now interval jobs w)) ++
               map evRecv (fst (outcomes now interval jobs w))) ++
              [EvNow (clock s3 (reads s3));
               EvSleep (dsub interval (Sub (clock s (S (reads s))) now))]).
    { cbn. rewrite Ht, <- !app_assoc. reflexivity. }
    rewrite (since_app _ _ _ Hall).
    rewrite !ticks_app, !sleeps_app. cbn.
    rewrite ?ticks_app, ?sleeps_app, ?ticks_runs, ?ticks_recvs, ?sleeps_runs,
      ?sleeps_recvs.
    split; reflexivity. }
  destruct Hfst as (H1 & H2 & H3). repeat split; try assumption.
  cbn [Run]. destruct (iteration fuel interval getJobs s) as [o s'].
  cbn in H1. subst o. reflexivity.
Qed.

Lemma processJobs_error_shape now interval jobs s e s' :
  processJobs now interval jobs s = (Returns (Some e), s') ->
  exists msg, e = New msg.
Proof.
  intros H. destruct (processJobs_spec now interval jobs s) as (s1 & E & _).
  rewrite E in H. unfold combined in H.
  destruct (Nat.eqb _ 0); inversion H. eexists. reflexivity.
Qed.

Lemma catchup_fail_shape fuel interval now jobs :
  forall lastElapsed elapsed totalInterval s e s',
    catchup fuel interval now jobs lastElapsed elapsed totalInterval s =
      (Fail e, s') ->
    e = errMaxCatchups \/ exists msg, e = New msg.
Proof.
  induction fuel as [|fuel IH]; intros lastElapsed elapsed totalInterval s e s';
    cbn [catchup]; destruct (elapsed >? totalInterval); try discriminate.
  destruct (processJobs (Add now totalInterval) interval jobs s)
    as [[[err|]|] s1] eqn:E; try discriminate.
  - intros H. inversion H; subst. right.
    apply (processJobs_error_shape _ _ _ _ _ _ E).
  - destruct (timeNow s1) as [t s2].
    destruct (totalInterval >? dmul interval (maxKetchups (world s2))).
    + intros H. inversion H. left. reflexivity.
    + apply IH.
Qed.

Lemma iteration_error_shape fuel interval getJobs s e s' :
  iteration fuel interval getJobs s = (Some (Returned e), s') ->
  e = errMaxCatchups \/ (exists c, e = Wrap c "getting jobs") \/
  exists msg, e = New msg.
Proof.
  unfold iteration. destruct (timeNow s) as [t0 s1].
  destruct (getJobs (world s1)) as [[jobs err] w].
  destruct err as [c|].
  { intros H. inversion H. right. left. eexists. reflexivity. }
  destruct (processJobs _ interval jobs _) as [[[err|]|] s3] eqn:E;
    try discriminate.
  { intros H. inversion H; subst. right. right.
    apply (processJobs_error_shape _ _ _ _ _ _ E). }
  destruct (timeNow s3) as [t1 s4].
  destruct (catchup _ _ _ _ _ _ _ _) as [[le|err| |] s5] eqn:Ec; try discriminate.
  intros H. inversion H; subst.
  destruct (catchup_fail_shape _ _ _ _ _ _ _ _ _ _ Ec) as [-> | Hm];
    [left; reflexivity | right; right; exact Hm].
Qed.

(** X7. [Run] returns nothing but errors, of three kinds: the loader's
    error wrapped with "getting jobs", the combined error of a tick (made
    with [errors.New]), or [errMaxCatchups]; and of these only
    [errMaxCatchups] has a [Temporary] method, which reports true. *)
Theorem Run_error_kinds fuel interval getJobs :
  forall s e,
  fst (Run fuel interval getJobs s) = Returned e ->
  (e = errMaxCatchups \/ (exists c, e = Wrap c "getting jobs") \/
   exists msg, e = New msg) /\
  (Temporary e = Some true <-> e = errMaxCatchups) /\
  (Temporary e = None <-> e <> errMaxCatchups).
Proof.
  induction fuel as [|fuel IH]; intros s e; cbn [Run]; [discriminate |].
  destruct (iteration fuel interval getJobs s) as [[o|] s'] eqn:E;
    [| apply IH].
  cbn [fst]. intros ->.
  pose proof (iteration_error_shape _ _ _ _ _ _ E) as Hs.
  split; [exact Hs |].
  destruct Hs as [-> | [[c ->] | [msg ->]]]; cbn;
    (split; split; intros H; try reflexivity; try discriminate H;
     try (intros H'; discriminate H'); try (exfalso; apply H; reflexivity)).
Qed.

End Passes.

(** ** The sleep at the end of a pass *)

Section Sleep.

Context {U : Type}.
Implicit Types (s : State U) (j : Job U) (jobs : list (Job U))
  (getJobs : JobLoader U).

Lemma last_cons_nonempty {A : Type} (a d : A) (l : list A) :
  l <> [] -> last (a :: l) d = last l d.
Proof. destruct l; [congruence | reflexivity]. Qed.

(** When the catch-up loop is left because its condition fails, either no
    round was made, or [lastElapsed] is the last reading of the clock minus
    the last tick processed. *)
Lemma catchup_done fuel interval now jobs :
  forall lastElapsed elapsed totalInterval s lastElapsed' s',
  catchup fuel interval now jobs lastElapsed elapsed totalInterval s =
    (Done lastElapsed', s') ->
  (lastElapsed' = lastElapsed /\ s' = s) \/
  exists evs t,
    trace s' = trace s ++ evs ++ [EvNow t] /\
    ticks evs <> [] /\
    lastElapsed' = Sub t (last (map fst (ticks evs)) 0).
Proof.
  induction fuel as [|fuel IH];
    intros lastElapsed elapsed totalInterval s lastElapsed' s';
    cbn [catchup]; destruct (elapsed >? totalInterval);
    try discriminate; try (intros H; inversion H; left; split; reflexivity).
  destruct (processJobs_events (Add now totalInterval) interval jobs s)
    as (r & s1 & evs1 & E & Ht & Hk & _).
  rewrite E. destruct r as [err|]; [discriminate |].
  destruct (timeNow_eq s1) as (En & _ & Htn). rewrite En.
  destruct (totalInterval >? dmul interval (maxKetchups (world (snd (timeNow s1)))));
    [discriminate |].
  intros H. right. apply IH in H.
  destruct H as [[-> ->] | (evs2 & t2 & Ht2 & Hne & ->)].
  - exists (EvTick (Add now totalInterval) jobs :: evs1), (clock s1 (reads s1)).
    rewrite Htn, Ht, <- app_assoc. cbn. rewrite Hk. cbn.
    repeat split. discriminate.
  - exists ((EvTick (Add now totalInterval) jobs :: evs1) ++
            [EvNow (clock s1 (reads s1))] ++ evs2), t2.
    rewrite Ht2, Htn, Ht, <- !app_assoc. split; [reflexivity |].
    assert (Hk' : ticks ((EvTick (Add now totalInterval) jobs :: evs1) ++
                         [EvNow (clock s1 (reads s1))] ++ evs2) =
                  (Add now totalInterval, jobs) :: ticks evs2).
    { rewrite !ticks_app. cbn. rewrite Hk. reflexivity. }
    rewrite Hk'. split; [discriminate |].
    cbn [map]. rewrite last_cons_nonempty; [reflexivity |].
    destruct (ticks evs2); [congruence | discriminate].
Qed.

(** X5. A pass that reaches its end sleeps for the interval minus the time
    between the last tick it processed (base or catch-up) and its last
    reading of the clock; when these differences are Durations, the sleep
    started at that reading ends at the boundary that follows the last tick
    processed. *)
Theorem iteration_sleeps_to_next_tick fuel interval getJobs s :
  fst (iteration fuel interval getJobs s) = None ->
  exists evs t,
    since s (snd (iteration fuel interval getJobs s)) =
      evs ++ [EvNow t;
              EvSleep (dsub interval (Sub t (last (map fst (ticks evs)) 0)))] /\
    ticks evs <> [] /\
    (minDuration <= t - last (map fst (ticks evs)) 0 <= maxDuration ->
     minDuration <= interval - (t - last (map fst (ticks evs)) 0) <= maxDuration ->
     t + dsub interval (Sub t (last (map fst (ticks evs)) 0)) =
       last (map fst (ticks evs)) 0 + interval).
Proof.
  unfold iteration.
  destruct (timeNow_eq s) as (En & Hw & Htn). rewrite En, Hw.
  destruct (getJobs (world s)) as [[jobs err] w]. cbn [fst snd].
  destruct err as [e|]; [discriminate |].
  set (s2 := emit EvLoad (setWorld w (snd (timeNow s)))).
  assert (Ht2 : trace s2 = trace s ++ [EvNow (clock s (reads s)); EvLoad]).
  { subst s2. cbn. rewrite <- app_assoc. reflexivity. }
  set (now := Truncate (clock s (reads s)) interval).
  destruct (processJobs_events now interval jobs s2)
    as (r & s3 & evs3 & E & Ht3 & Hk3 & _).
  rewrite E. destruct r as [err|]; [discriminate |].
  destruct (timeNow_eq s3) as (En3 & _ & Htn3). rewrite En3.
  destruct (catchup _ _ _ _ _ _ _ _) as [[le|err| |] s5] eqn:Ec; try discriminate.
  intros _. cbn [snd].
  assert (Harith : forall t tick : Z,
            minDuration <= t - tick <= maxDuration ->
            minDuration <= interval - (t - tick) <= maxDuration ->
            t + dsub interval (Sub t tick) = tick + interval).
  { intros t tick H1 H2. unfold Sub.
    destruct (Z.ltb_spec (t - tick) minDuration); [lia |].
    destruct (Z.ltb_spec maxDuration (t - tick)); [lia |].
    unfold dsub. rewrite wrap64_small by exact H2. lia. }
  apply catchup_done in Ec.
  destruct Ec as [[-> ->] | (evs & t & Ht5 & Hne & ->)].
  - exists ([EvNow (clock s (reads s)); EvLoad] ++ EvTick now jobs :: evs3),
           (clock s3 (reads s3)).
    assert (Hk : ticks ([EvNow (clock s (reads s)); EvLoad] ++
                        EvTick now jobs :: evs3) = [(now, jobs)])
      by (cbn; rewrite Hk3; reflexivity).
    rewrite Hk. cbn [map fst last]. split.
    + apply since_app. cbn [timeSleep emit trace].
      rewrite Htn3, Ht3, Ht2, <- !app_assoc. reflexivity.
    + split; [discriminate | apply Harith].
  - exists (([EvNow (clock s (reads s)); EvLoad] ++ EvTick now jobs :: evs3) ++
            [EvNow (clock s3 (reads s3))] ++ evs), t.
    assert (Hk : ticks (([EvNow (clock s (reads s)); EvLoad] ++
                         EvTick now jobs :: evs3) ++
                        [EvNow (clock s3 (reads s3))] ++ evs) =
                 (now, jobs) :: ticks evs).
    { rewrite ticks_app. cbn. rewrite Hk3. reflexivity. }
    rewrite Hk. cbn [map].
    rewrite last_cons_nonempty
      by (destruct (ticks evs); [congruence | discriminate]).
    split.
    + apply since_app. cbn [timeSleep emit trace].
      rewrite Ht5, Htn3, Ht3, Ht2, <- !app_assoc. reflexivity.
    + split; [discriminate | apply Harith].
Qed.

End Sleep.

(** ** How many catch-up rounds *)

Section Bound.

Context {U : Type}.
Implicit Types (s : State U) (j : Job U) (jobs : list (Job U)).

(** Jobs that do not call [SetMaxCatchup] leave the limit as it is. *)
Lemma outcomes_keep_limit now interval jobs :
  (forall j, In j jobs -> forall w, maxKetchups (snd (Exec j w)) = maxKetchups w) ->
  forall w : World U,
    maxKetchups (snd (outcomes now interval jobs w)) = maxKetchups w.
Proof.
  induction jobs as [|j rest IH]; intros H w; cbn; [reflexivity |].
  assert (Hrest : forall j', In j' rest ->
            forall w', maxKetchups (snd (Exec j' w')) = maxKetchups w')
    by (intros j' Hj'; apply H; right; exact Hj').
  destruct (due now interval j); [| apply IH, Hrest].
  pose proof (H j (or_introl eq_refl) w) as Hj.
  destruct (Exec j w) as [r w1]. cbn in Hj.
  specialize (IH Hrest w1).
  destruct (outcomes now interval rest w1) as [os w2]. cbn in *. congruence.
Qed.

Lemma since_same s : since s s = [].
Proof. unfold since. apply skipn_all. Qed.

Lemma catchup_rounds_bounded interval now jobs (m : Z) :
  0 < interval -> 0 <= m -> (m + 2) * interval <= maxDuration ->
  (forall j, In j jobs -> forall w, maxKetchups (snd (Exec j w)) = maxKetchups w) ->
  forall (fuel : nat) (k : Z) lastElapsed elapsed s,
    1 <= k <= m + 1 ->
    m + 2 - k <= Z.of_nat fuel ->
    maxKetchups (world s) = m ->
    fst (catchup fuel interval now jobs lastElapsed elapsed (k * interval) s)
      <> NoFuel /\
    Z.of_nat (List.length (ticks (since s
      (snd (catchup fuel interval now jobs lastElapsed elapsed (k * interval) s)))))
      <= m + 2 - k.
Proof.
  intros Hi Hm Hmax Hkeep.
  induction fuel as [|fuel IH]; intros k lastElapsed elapsed s Hk Hfuel Hs;
    [lia |].
  cbn [catchup]. destruct (elapsed >? k * interval).
  2:{ cbn [fst snd]. rewrite since_same. cbn. split; [discriminate | lia]. }
  destruct (processJobs_spec (Add now (k * interval)) interval jobs s)
    as (s1 & E & Hw1 & Ht1 & _).
  rewrite E.
  set (evs1 := EvTick (Add now (k * interval)) jobs ::
               map evRun (fst (outcomes (Add now (k * interval)) interval jobs (world s))) ++
               map evRecv (fst (outcomes (Add now (k * interval)) interval jobs (world s))))
    in Ht1.
  assert (Hk1 : ticks evs1 = [(Add now (k * interval), jobs)]).
  { subst evs1. cbn. rewrite ticks_app, ticks_runs, ticks_recvs. reflexivity. }
  assert (Hm1 : maxKetchups (world s1) = m)
    by (rewrite Hw1, outcomes_keep_limit by exact Hkeep; exact Hs).
  destruct (combined _) as [err|].
  { cbn [fst snd]. rewrite (since_app _ _ _ Ht1), Hk1. cbn.
    split; [discriminate | lia]. }
  destruct (timeNow_eq s1) as (En & Hwn & Htn). rewrite En, Hwn, Hm1.
  rewrite dmul_exact by (unfold minDuration; nia).
  destruct (Z.gtb_spec (k * interval) (interval * m)) as [Hgt | Hle].
  { cbn [fst snd].
    assert (Ht : trace (snd (timeNow s1)) =
                 trace s ++ evs1 ++ [EvNow (clock s1 (reads s1))])
      by (rewrite Htn, Ht1, <- app_assoc; reflexivity).
    rewrite (since_app _ _ _ Ht), ticks_app, Hk1. cbn.
    split; [discriminate | lia]. }
  assert (Hk' : k <= m) by nia.
  assert (Hadv : dadd (k * interval) interval = (k + 1) * interval).
  { unfold dadd. rewrite wrap64_small; [lia |]. unfold minDuration. nia. }
  rewrite Hadv.
  match goal with |- context [catchup fuel _ _ _ ?l ?e _ ?st] =>
    destruct (IH (k + 1) l e st) as [Hnf Hlen];
      [lia | lia | rewrite Hwn; exact Hm1 |];
    destruct (catchup_events fuel interval now jobs l e ((k + 1) * interval) st)
      as (evs2 & n & Ht2 & _)
  end.
  split; [exact Hnf |].
  rewrite (since_app _ _ _ Ht2) in Hlen.
  assert (Ht : trace (snd (catchup fuel interval now jobs
                 (Sub (clock s1 (reads s1)) (Add now (k * interval)))
                 (dadd elapsed (Sub (clock s1 (reads s1)) (Add now (k * interval))))
                 ((k + 1) * interval) (snd (timeNow s1)))) =
               trace s ++ evs1 ++ [EvNow (clock s1 (reads s1))] ++ evs2)
    by (rewrite Ht2, Htn, Ht1, <- !app_assoc; reflexivity).
  rewrite (since_app _ _ _ Ht), !ticks_app, Hk1. cbn [ticks app List.length].
  lia.
Qed.

(** X6. With a positive interval, a limit [m >= 0] that the jobs do not
    change and no int64 overflow up to [(m + 2) * interval], the catch-up
    loop of a pass ends within [m + 1] rounds, whatever the clock shows: it
    processes at most [m + 1] catch-up ticks and never goes on for ever. *)
Theorem catchup_ends_within_limit fuel interval now jobs (m : Z) lastElapsed s :
  0 < interval -> 0 <= m -> (m + 2) * interval <= maxDuration ->
  (forall j, In j jobs -> forall w, maxKetchups (snd (Exec j w)) = maxKetchups w) ->
  maxKetchups (world s) = m ->
  m + 1 <= Z.of_nat fuel ->
  fst (catchup fuel interval now jobs lastElapsed lastElapsed interval s)
    <> NoFuel /\
  Z.of_nat (List.length (ticks (since s
    (snd (catchup fuel interval now jobs lastElapsed lastElapsed interval s)))))
    <= m + 1.
Proof.
  intros Hi Hm Hmax Hkeep Hs Hfuel.
  pose proof (catchup_rounds_bounded interval now jobs m Hi Hm Hmax Hkeep
                fuel 1 lastElapsed lastElapsed s) as H.
  rewrite Z.mul_1_l in H.
  replace (m + 2 - 1) with (m + 1) in H by lia.
  apply H; [lia | exact Hfuel | exact Hs].
Qed.

End Bound.

(** ** The grid of ticks *)

Section Grid.

Context {U : Type}.

(** X8. The ticks that [Run] processes - the base tick
    [time.Now().Truncate(interval)] and the catch-up ticks [k] intervals
    later, as long as [k * interval] is a Duration - are left unchanged by
    truncation to the interval, so a job of frequency 1 is due at every one
    of them. *)
Theorem frequency_one_due_at_every_tick (j : Job U) interval (t : Time) (k : Z) :
  Frequency j = 1 ->
  minDuration <= interval <= maxDuration ->
  minDuration <= k * interval <= maxDuration ->
  Truncate (Add (Truncate t interval) (wrap64 (k * interval))) interval =
    Add (Truncate t interval) (wrap64 (k * interval)) /\
  due (Add (Truncate t interval) (wrap64 (k * interval))) interval j = true.
Proof.
  intros Hf Hi Hk.
  assert (Hfix : Truncate (Add (Truncate t interval) (wrap64 (k * interval)))
                   interval =
                 Add (Truncate t interval) (wrap64 (k * interval))).
  { destruct (Z_le_gt_dec interval 0) as [Hle | Hgt].
    - apply Truncate_nonpositive, Hle.
    - apply Truncate_fixed_iff; [lia |].
      rewrite wrap64_small by exact Hk. unfold Add, Truncate.
      destruct (Z.leb_spec interval 0); [lia |].
      exists (t / interval + k).
      pose proof (Z_div_mod_eq_full t interval). lia. }
  split; [exact Hfix |].
  apply due_iff. rewrite Hf. unfold dmul. rewrite Z.mul_1_l.
  rewrite (wrap64_small interval Hi). exact Hfix.
Qed.

End Grid.

(** ** Sends that are never received *)

Section Leak.

Context {U : Type}.
Implicit Types (s : State U) (jobs : list (Job U)).

Lemma unreceived_sends (os : list (Job U * option error)) :
  List.concat (map (@tl (option error)) (map sendsOf os)) =
    map (fun _ => None) (failed (map evRun os)).
Proof.
  induction os as [|[j [e|]] os IH]; cbn; [reflexivity | | exact IH].
  rewrite IH. reflexivity.
Qed.

(** X9. Of the sends made on the channels of a tick, [processJobs] receives
    the first of each channel; when it returns, what is left unreceived is
    one nil per failing job - one goroutine per failing job is left blocked
    in its second send - and nothing for the jobs that succeeded. *)
Theorem processJobs_unreceived_sends now interval jobs s :
  List.concat (map (@tl (option error))
            (fst (fst (startJobs now interval jobs [] 0
                         (emit (EvTick now jobs) s))))) =
    map (fun _ => None)
        (failed (since s (snd (processJobs now interval jobs s)))) /\
  map (@hd_error (option error))
      (fst (fst (startJobs now interval jobs [] 0 (emit (EvTick now jobs) s)))) =
    map Some (received (since s (snd (processJobs now interval jobs s)))).
Proof.
  destruct (startJobs_spec now interval jobs [] 0 (emit (EvTick now jobs) s))
    as (s1 & E & _).
  rewrite E. cbn [fst app world emit].
  rewrite processJobs_failed, processJobs_received. split.
  - apply unreceived_sends.
  - rewrite !map_map. apply map_ext. intros [j [e|]]; reflexivity.
Qed.

End Leak.

(** ** What is logged *)

Section Logged.

Context {U : Type}.
Implicit Types (s : State U) (j : Job U) (jobs : list (Job U)).

Lemma runJob_logs j interval s :
  logs (snd (runJob j interval s)) =
    Log.debugf "running job %s (%s)"
      [AStr (Name j); ADur (dmul (Frequency j) interval)] (logs s).
Proof. unfold runJob. cbn. destruct (Exec j (world s)); reflexivity. Qed.

Lemma startJobs_logs now interval jobs :
  forall (completes : list chan) (jCount : Z) s,
  lg (logs s) = Some recorder ->
  lg (logs (snd (startJobs now interval jobs completes jCount s))) =
    Some recorder /\
  sink (logs (snd (startJobs now interval jobs completes jCount s))) =
    sink (logs s) ++
    map (runningLine interval) (fst (outcomes now interval jobs (world s))).
Proof.
  induction jobs as [|j rest IH]; intros completes jCount s Hlg; cbn.
  - rewrite app_nil_r. split; [exact Hlg | reflexivity].
  - destruct (due now interval j); [| apply IH, Hlg].
    destruct (runJob_spec j interval s) as (s1 & E & Hw & _).
    pose proof (runJob_logs j interval s) as Hl. rewrite E in Hl. cbn in Hl.
    rewrite E.
    assert (Hlg1 : lg (logs s1) = Some recorder)
      by (rewrite Hl; unfold Log.debugf; rewrite Hlg; reflexivity).
    destruct (IH (completes ++ [sendsOf (j, fst (Exec j (world s)))])
                 (jCount + 1) s1 Hlg1) as [H1 H2].
    rewrite H1, H2, Hw, Hl. unfold Log.debugf. rewrite Hlg.
    destruct (Exec j (world s)) as [r w1]. cbn.
    destruct (outcomes now interval rest w1) as [os w2]. cbn.
    rewrite <- app_assoc. split; reflexivity.
Qed.

Lemma drain_logs (os : list (Job U * option error)) :
  forall (errs : list error) s,
  lg (logs s) = Some recorder ->
  lg (logs (snd (drain (map sendsOf os) errs s))) = Some recorder /\
  sink (logs (snd (drain (map sendsOf os) errs s))) =
    sink (logs s) ++
    flat_map (fun o =>
                match signalOf o with
                | Some e => [("%+v", [AErr e])]
                | None => []
                end ++ [("", [AStr "job finished"])]) os.
Proof.
  induction os as [|[j [e|]] os IH]; intros errs s Hlg; cbn.
  - rewrite app_nil_r. split; [exact Hlg | reflexivity].
  - match goal with |- context [drain _ ?e' ?st] =>
      destruct (IH e' st) as [H1 H2] end.
    { cbn. unfold Log.debug, Log.logf. cbn. rewrite Hlg. reflexivity. }
    rewrite H1, H2. cbn. unfold Log.debug, Log.logf. cbn. rewrite Hlg. cbn.
    rewrite <- !app_assoc. split; reflexivity.
  - match goal with |- context [drain _ ?e' ?st] =>
      destruct (IH e' st) as [H1 H2] end.
    { cbn. unfold Log.debug. cbn. rewrite Hlg. reflexivity. }
    rewrite H1, H2. cbn. unfold Log.debug. cbn. rewrite Hlg. cbn.
    rewrite <- !app_assoc. split; reflexivity.
Qed.

Lemma filter_running_lines interval (os : list (Job U * option error)) :
  filter isRunningLine (map (runningLine interval) os) =
    map (runningLine interval) os /\
  filter (fun c => negb (isRunningLine c)) (map (runningLine interval) os) = [].
Proof.
  induction os as [|o os [IH1 IH2]]; cbn; [split; reflexivity |].
  rewrite IH1, IH2. split; reflexivity.
Qed.

Lemma filter_tick_lines (os : list (Job U * option error)) :
  filter isRunningLine (tickLines os) = [] /\
  filter (fun c => negb (isRunningLine c)) (tickLines os) = tickLines os.
Proof.
  unfold tickLines. cbn [filter isRunningLine fst String.eqb Ascii.eqb Bool.eqb negb].
  generalize (Z.of_nat (List.length os)). intros n.
  induction os as [|[j [e|]] os [IH1 IH2]]; cbn; [split; reflexivity | |].
  - cbn in IH1, IH2. rewrite IH1. split; [reflexivity |].
    injection IH2 as IH2. rewrite IH2. reflexivity.
  - cbn in IH1, IH2. rewrite IH1. split; [reflexivity |].
    injection IH2 as IH2. rewrite IH2. reflexivity.
Qed.

(** X10. With a logger set that keeps every call, a call of [processJobs]
    leaves the logger set and adds to what was logged: from the goroutines,
    one "running job" line per job launched; from [processJobs] itself, in
    this order, "started %d jobs" with the number of jobs launched and then,
    for each channel in launch order, the error received, if any, with
    [Printf] and "job finished" with [Debug]. *)
Theorem processJobs_log_lines now interval jobs s :
  lg (logs s) = Some recorder ->
  lg (logs (snd (processJobs now interval jobs s))) = Some recorder /\
  filter (fun c => negb (isRunningLine c))
         (sink (logs (snd (processJobs now interval jobs s)))) =
    filter (fun c => negb (isRunningLine c)) (sink (logs s)) ++
    tickLines (fst (outcomes now interval jobs (world s))) /\
  filter isRunningLine (sink (logs (snd (processJobs now interval jobs s)))) =
    filter isRunningLine (sink (logs s)) ++
    map (runningLine interval) (fst (outcomes now interval jobs (world s))) /\
  List.length (fst (outcomes now interval jobs (world s))) =
    List.length (launched (since s (snd (processJobs now interval jobs s)))).
Proof.
  intros Hlg.
  assert (Hlen : List.length (fst (outcomes now interval jobs (world s))) =
                 List.length (launched (since s (snd (processJobs now interval jobs s))))).
  { rewrite processJobs_launched, <- (outcomes_due now interval jobs (world s)),
      length_map. reflexivity. }
  cut (lg (logs (snd (processJobs now interval jobs s))) = Some recorder /\
       filter (fun c => negb (isRunningLine c))
              (sink (logs (snd (processJobs now interval jobs s)))) =
         filter (fun c => negb (isRunningLine c)) (sink (logs s)) ++
         tickLines (fst (outcomes now interval jobs (world s))) /\
       filter isRunningLine (sink (logs (snd (processJobs now interval jobs s)))) =
         filter isRunningLine (sink (logs s)) ++
         map (runningLine interval) (fst (outcomes now interval jobs (world s)))).
  { intros (A & B & C). repeat split; assumption. }
  clear Hlen. unfold processJobs.
  destruct (startJobs_spec now interval jobs [] 0 (emit (EvTick now jobs) s))
    as (s1 & E1 & _).
  destruct (startJobs_logs now interval jobs [] 0 (emit (EvTick now jobs) s) Hlg)
    as [Hlg1 Hsink1].
  rewrite E1 in Hlg1, Hsink1 |- *. cbn [fst snd app world logs emit] in *.
  set (os := fst (outcomes now interval jobs (world s))) in *.
  set (s2 := debugf "started %d jobs" [AInt (0 + Z.of_nat (List.length os))] s1).
  assert (Hlg2 : lg (logs s2) = Some recorder).
  { subst s2. cbn. unfold Log.debugf. rewrite Hlg1. reflexivity. }
  assert (Hsink2 : sink (logs s2) =
            sink (logs s) ++ map (runningLine interval) os ++
            [("started %d jobs", [AInt (Z.of_nat (List.length os))])]).
  { subst s2. cbn. unfold Log.debugf. rewrite Hlg1. cbn.
    rewrite Hsink1, <- app_assoc. reflexivity. }
  destruct (drain_spec os [] s2) as (s3 & E3 & _).
  destruct (drain_logs os [] s2 Hlg2) as [Hlg3 Hsink3].
  rewrite E3 in Hlg3, Hsink3 |- *. cbn [snd] in Hlg3, Hsink3.
  assert (Hall : sink (logs s3) =
            sink (logs s) ++ map (runningLine interval) os ++ tickLines os).
  { rewrite Hsink3, Hsink2, <- !app_assoc. reflexivity. }
  destruct (filter_running_lines interval os) as [Fr1 Fr2].
  destruct (filter_tick_lines os) as [Ft1 Ft2].
  destruct (Nat.eqb _ 0); cbn [snd];
    rewrite Hall, !filter_app, Fr1, Fr2, Ft1, Ft2, ?app_nil_r;
    repeat split; assumption.
Qed.

End Logged.

(** ** The properties above, on sample runs *)

Lemma Run_loader_failure_witness :
  fst (Run 1 10 (brokenLoader "down") promptStart) =
    Returned (Wrap (New "down") "getting jobs") /\
  Error (Wrap (New "down") "getting jobs") =
    ("getting jobs: " ++ Error (New "down"))%string /\
  since promptStart (snd (Run 1 10 (brokenLoader "down") promptStart)) =
    [EvNow (clock promptStart (reads promptStart)); EvLoad] /\
  world (snd (Run 1 10 (brokenLoader "down") promptStart)) =
    snd (brokenLoader "down" (world promptStart)).
Proof.
  apply (Run_loader_failure 0 10 (brokenLoader "down") promptStart (New "down")).
  reflexivity.
Defined.

Lemma Run_job_failure_witness :
  exists msg,
    fst (Run 1 10 (fixedJobs mixedJobs) promptStart) = Returned (New msg) /\
    occursIn (Name (failingJob "B" 1 "boom")) msg /\
    ticks (since promptStart (snd (Run 1 10 (fixedJobs mixedJobs) promptStart))) =
      [(Truncate (clock promptStart (reads promptStart)) 10, mixedJobs)] /\
    sleeps (since promptStart (snd (Run 1 10 (fixedJobs mixedJobs) promptStart))) =
      [].
Proof.
  apply (Run_job_failure 0 10 (fixedJobs mixedJobs) promptStart mixedJobs
           (world promptStart) (failingJob "B" 1 "boom") (New "boom")).
  - reflexivity.
  - right. left. reflexivity.
Defined.

Lemma iteration_without_catchup_witness :
  fst (iteration 0 10 (fixedJobs [okJob "A" 1]) promptStart) = None /\
  ticks (since promptStart
           (snd (iteration 0 10 (fixedJobs [okJob "A" 1]) promptStart))) =
    [(Truncate (clock promptStart (reads promptStart)) 10, [okJob "A" 1])] /\
  sleeps (since promptStart
            (snd (iteration 0 10 (fixedJobs [okJob "A" 1]) promptStart))) =
    [dsub 10 (Sub (clock promptStart (S (reads promptStart)))
                  (Truncate (clock promptStart (reads promptStart)) 10))] /\
  Run 1 10 (fixedJobs [okJob "A" 1]) promptStart =
    Run 0 10 (fixedJobs [okJob "A" 1])
      (snd (iteration 0 10 (fixedJobs [okJob "A" 1]) promptStart)).
Proof.
  apply (iteration_without_catchup 0 10 (fixedJobs [okJob "A" 1]) promptStart
           [okJob "A" 1] (world promptStart)).
  - reflexivity.
  - reflexivity.
  - vm_compute. discriminate.
Defined.

Lemma iteration_sleeps_to_next_tick_witness :
  exists evs t,
    since lateStart (snd (iteration 5 10 (fixedJobs []) lateStart)) =
      evs ++ [EvNow t;
              EvSleep (dsub 10 (Sub t (last (map fst (ticks evs)) 0)))] /\
    ticks evs <> [] /\
    (minDuration <= t - last (map fst (ticks evs)) 0 <= maxDuration ->
     minDuration <= 10 - (t - last (map fst (ticks evs)) 0) <= maxDuration ->
     t + dsub 10 (Sub t (last (map fst (ticks evs)) 0)) =
       last (map fst (ticks evs)) 0 + 10).
Proof.
  apply (iteration_sleeps_to_next_tick 5 10 (fixedJobs []) lateStart).
  reflexivity.
Defined.

Lemma catchup_ends_within_limit_witness :
  fst (catchup 21 10 100 [okJob "A" 1] 1000 1000 10 lateStart) <> NoFuel /\
  Z.of_nat (List.length (ticks (since lateStart
    (snd (catchup 21 10 100 [okJob "A" 1] 1000 1000 10 lateStart))))) <= 20 + 1.
Proof.
  apply (catchup_ends_within_limit 21 10 100 [okJob "A" 1] 20 1000 lateStart).
  - reflexivity.
  - vm_compute. discriminate.
  - vm_compute. discriminate.
  - intros j [<- | []] w. reflexivity.
  - reflexivity.
  - vm_compute. discriminate.
Defined.

Lemma Run_error_kinds_witness :
  (Wrap (New "down") "getting jobs" = errMaxCatchups \/
   (exists c, Wrap (New "down") "getting jobs" = Wrap c "getting jobs") \/
   exists msg, Wrap (New "down") "getting jobs" = New msg) /\
  (Temporary (Wrap (New "down") "getting jobs") = Some true <->
     Wrap (New "down") "getting jobs" = errMaxCatchups) /\
  (Temporary (Wrap (New "down") "getting jobs") = None <->
     Wrap (New "down") "getting jobs" <> errMaxCatchups).
Proof.
  apply (Run_error_kinds 1 10 (brokenLoader "down") promptStart
           (Wrap (New "down") "getting jobs")).
  reflexivity.
Defined.

Lemma frequency_one_due_at_every_tick_witness :
  Truncate (Add (Truncate 1234 10) (wrap64 (3 * 10))) 10 =
    Add (Truncate 1234 10) (wrap64 (3 * 10)) /\
  due (Add (Truncate 1234 10) (wrap64 (3 * 10))) 10 (okJob "A" 1) = true.
Proof.
  apply (frequency_one_due_at_every_tick (okJob "A" 1) 10 1234 3).
  - reflexivity.
  - vm_compute. split; discriminate.
  - vm_compute. split; discriminate.
Defined.

Lemma processJobs_log_lines_witness :
  lg (logs (snd (processJobs 100 10 mixedJobs recordedStart))) = Some recorder /\
  filter (fun c => negb (isRunningLine c))
         (sink (logs (snd (processJobs 100 10 mixedJobs recordedStart)))) =
    filter (fun c => negb (isRunningLine c)) (sink (logs recordedStart)) ++
    tickLines (fst (outcomes 100 10 mixedJobs (world recordedStart))) /\
  filter isRunningLine
         (sink (logs (snd (processJobs 100 10 mixedJobs recordedStart)))) =
    filter isRunningLine (sink (logs recordedStart)) ++
    map (runningLine 10) (fst (outcomes 100 10 mixedJobs (world recordedStart))) /\
  List.length (fst (outcomes 100 10 mixedJobs (world recordedStart))) =
    List.length (launched (since recordedStart
                   (snd (processJobs 100 10 mixedJobs recordedStart)))).
Proof.
  apply (processJobs_log_lines 100 10 mixedJobs recordedStart).
  reflexivity.
Defined.

(** ** A failure in a catch-up tick, and the period of a job *)

Section More.

Context {U : Type}.
Implicit Types (s : State U) (j : Job U) (jobs : list (Job U))
  (getJobs : JobLoader U).

(** X11. When the action of a job due at a catch-up tick fails, the
    catch-up loop is left at once with the combined error of that tick,
    which [Run] returns: the message holds the job's name, and after this
    tick the loop processes no other and does not read the clock again. *)
Theorem catchup_job_failure
    fuel interval now jobs lastElapsed elapsed totalInterval s j e :
  elapsed > totalInterval ->
  In (j, Some e)
     (fst (outcomes (Add now totalInterval) interval jobs (world s))) ->
  exists msg,
    fst (catchup (S fuel) interval now jobs lastElapsed elapsed totalInterval s) =
      Fail (New msg) /\
    occursIn (Name j) msg /\
    since s (snd (catchup (S fuel) interval now jobs lastElapsed elapsed
                    totalInterval s)) =
      since s (snd (processJobs (Add now totalInterval) interval jobs s)) /\
    ticks (since s (snd (catchup (S fuel) interval now jobs lastElapsed elapsed
                           totalInterval s))) =
      [(Add now totalInterval, jobs)].
Proof.
  intros Hgt Hin. cbn [catchup].
  destruct (Z.gtb_spec elapsed totalInterval); [| lia].
  pose proof (processJobs_since (Add now totalInterval) interval jobs s) as Hsince.
  destruct (processJobs_spec (Add now totalInterval) interval jobs s)
    as (s1 & E & _).
  rewrite E in Hsince |- *. cbn [snd] in Hsince.
  apply failing_outcome_error in Hin. unfold combined.
  destruct (errorsOf _) as [|e0 errs] eqn:Eerrs; [destruct Hin |].
  cbn [List.length Nat.eqb fst snd]. eexists. split; [reflexivity |].
  split.
  - eapply occursIn_trans; [apply Error_Wrap_names |].
    apply fold_Sprintf_holds, Hin.
  - split; [reflexivity |].
    rewrite Hsince. cbn. rewrite ticks_app, ticks_runs, ticks_recvs. reflexivity.
Qed.

(** X12. A job whose period [Frequency * interval] is positive is due at a
    time exactly when it is due any whole number of periods later or
    earlier. *)
Theorem due_periodic j (now : Time) interval (k : Z) :
  0 < dmul (Frequency j) interval ->
  due (Add now (k * dmul (Frequency j) interval)) interval j =
    due now interval j.
Proof.
  intros Hd. unfold due, Truncate, Add.
  destruct (Z.leb_spec (dmul (Frequency j) interval) 0); [lia |].
  rewrite Z_mod_plus_full.
  destruct (Z.eqb_spec (now - now mod dmul (Frequency j) interval) now);
    destruct (Z.eqb_spec
                (now + k * dmul (Frequency j) interval -
                 now mod dmul (Frequency j) interval)
                (now + k * dmul (Frequency j) interval));
    (reflexivity || lia).
Qed.

End More.

Lemma catchup_job_failure_witness :
  exists msg,
    fst (catchup 1 10 100 mixedJobs 15 15 10 promptStart) = Fail (New msg) /\
    occursIn (Name (failingJob "B" 1 "boom")) msg /\
    since promptStart (snd (catchup 1 10 100 mixedJobs 15 15 10 promptStart)) =
      since promptStart (snd (processJobs (Add 100 10) 10 mixedJobs promptStart)) /\
    ticks (since promptStart
             (snd (catchup 1 10 100 mixedJobs 15 15 10 promptStart))) =
      [(Add 100 10, mixedJobs)].
Proof.
  apply (catchup_job_failure 0 10 100 mixedJobs 15 15 10 promptStart
           (failingJob "B" 1 "boom") (New "boom")).
  - reflexivity.
  - right. left. reflexivity.
Defined.

Lemma due_periodic_witness :
  due (Add 60 (7 * dmul (Frequency (okJob "A" 2)) 10)) 10 (okJob "A" 2) =
    due 60 10 (okJob "A" 2).
Proof.
  apply (due_periodic (okJob "A" 2) 60 10 7). reflexivity.
Defined.

(** ** Without a logger *)

Section Unlogged.

Context {U : Type}.
Implicit Types (s : State U) (j : Job U) (jobs : list (Job U))
  (getJobs : JobLoader U).

Lemma startJobs_unlogged now interval jobs :
  forall (completes : list chan) (jCount : Z) s,
  lg (logs s) = None ->
  logs (snd (startJobs now interval jobs completes jCount s)) = logs s.
Proof.
  induction jobs as [|j rest IH]; intros completes jCount s Hlg; cbn;
    [reflexivity |].
  destruct (due now interval j); [| apply IH, Hlg].
  pose proof (runJob_logs j interval s) as Hl.
  destruct (runJob j interval s) as [c s1]. cbn in Hl.
  unfold Log.debugf in Hl. rewrite Hlg in Hl.
  rewrite IH by (rewrite Hl; exact Hlg). exact Hl.
Qed.

Lemma drain_unlogged (completes : list chan) :
  forall (errs : list error) s,
  lg (logs s) = None ->
  logs (snd (drain completes errs s)) = logs s.
Proof.
  induction completes as [|c rest IH]; intros errs s Hlg; cbn; [reflexivity |].
  destruct c as [|[e|] c']; cbn; [reflexivity | |].
  - match goal with |- logs (snd (drain rest _ ?st)) = _ =>
      assert (Hst : logs st = logs s)
    end.
    { cbn. unfold Log.logf. rewrite Hlg. unfold Log.debug. rewrite Hlg.
      reflexivity. }
    rewrite IH by (rewrite Hst; exact Hlg). exact Hst.
  - match goal with |- logs (snd (drain rest _ ?st)) = _ =>
      assert (Hst : logs st = logs s)
    end.
    { cbn. unfold Log.debug. rewrite Hlg. reflexivity. }
    rewrite IH by (rewrite Hst; exact Hlg). exact Hst.
Qed.

Lemma processJobs_unlogged now interval jobs s :
  lg (logs s) = None ->
  logs (snd (processJobs now interval jobs s)) = logs s.
Proof.
  intros Hlg. unfold processJobs.
  pose proof (startJobs_unlogged now interval jobs [] 0
                (emit (EvTick now jobs) s) Hlg) as H1.
  destruct (startJobs now interval jobs [] 0 (emit (EvTick now jobs) s))
    as [[completes jCount] s1]. cbn in H1.
  assert (H2 : logs (debugf "started %d jobs" [AInt jCount] s1) = logs s).
  { cbn. unfold Log.debugf. rewrite H1, Hlg. reflexivity. }
  pose proof (drain_unlogged completes []
                (debugf "started %d jobs" [AInt jCount] s1)) as H3.
  rewrite H2 in H3. specialize (H3 Hlg).
  destruct (drain completes [] _) as [[errs|] s3]; cbn in H3 |- *.
  - destruct (Nat.eqb _ 0); exact H3.
  - exact H3.
Qed.

Lemma catchup_unlogged fuel interval now jobs :
  forall lastElapsed elapsed totalInterval s,
  lg (logs s) = None ->
  logs (snd (catchup fuel interval now jobs lastElapsed elapsed totalInterval s)) =
    logs s.
Proof.
  induction fuel as [|fuel IH]; intros lastElapsed elapsed totalInterval s Hlg;
    cbn [catchup]; destruct (elapsed >? totalInterval); try reflexivity.
  pose proof (processJobs_unlogged (Add now totalInterval) interval jobs s Hlg)
    as H1.
  destruct (processJobs (Add now totalInterval) interval jobs s)
    as [[[err|]|] s1]; cbn in H1 |- *; try exact H1.
  destruct (totalInterval >? dmul interval (maxKetchups (world s1)));
    [exact H1 |].
  rewrite IH; cbn; rewrite H1; [reflexivity | exact Hlg].
Qed.

Lemma iteration_unlogged fuel interval getJobs s :
  lg (logs s) = None ->
  logs (snd (iteration fuel interval getJobs s)) = logs s.
Proof.
  intros Hlg. unfold iteration. cbn [timeNow].
  cbv iota beta. cbn [world emit].
  destruct (getJobs (world s)) as [[jobs err] w].
  destruct err as [e|]; [reflexivity |].
  match goal with |- context [processJobs ?n interval jobs ?st] =>
    pose proof (processJobs_unlogged n interval jobs st Hlg) as H1;
    destruct (processJobs n interval jobs st) as [[[err|]|] s3]
  end; cbn in H1 |- *; try exact H1.
  match goal with |- context [catchup fuel ?i ?n ?j ?l ?e ?t ?st] =>
    pose proof (catchup_unlogged fuel i n j l e t st) as H2;
    destruct (catchup fuel i n j l e t st) as [x s5]
  end.
  cbn in H2. rewrite H1 in H2. specialize (H2 Hlg).
  destruct x; cbn; exact H2.
Qed.

(** X13. While no logger is set, nothing is logged and none gets set:
    [processJobs] and [Run] leave the logger state exactly as it was. *)
Theorem nothing_logged_without_logger now interval jobs getJobs s :
  lg (logs s) = None ->
  logs (snd (processJobs now interval jobs s)) = logs s /\
  forall fuel, logs (snd (Run fuel interval getJobs s)) = logs s.
Proof.
  intros Hlg. split; [apply processJobs_unlogged, Hlg |].
  intros fuel. revert s Hlg.
  induction fuel as [|fuel IH]; intros s Hlg; cbn [Run]; [reflexivity |].
  pose proof (iteration_unlogged fuel interval getJobs s Hlg) as H.
  destruct (iteration fuel interval getJobs s) as [[o|] s']; cbn in H |- *;
    [exact H |].
  rewrite IH by (rewrite H; exact Hlg). exact H.
Qed.

End Unlogged.

Lemma nothing_logged_without_logger_witness :
  logs (snd (processJobs 100 10 mixedJobs promptStart)) = logs promptStart /\
  forall fuel,
    logs (snd (Run fuel 10 (fixedJobs mixedJobs) promptStart)) = logs promptStart.
Proof.
  apply (nothing_logged_without_logger 100 10 mixedJobs (fixedJobs mixedJobs)
           promptStart).
  reflexivity.
Defined.

(** * The due rule and the catch-up rule, as the code has them *)

Section DueRule.

Context {U : Type}.
Implicit Types (s : State U) (j : Job U) (jobs : list (Job U)).

(** C1, as the code has it. For every tick, interval and job list,
    [processJobs] launches exactly the jobs of the list for which
    [now.Truncate(j.Frequency*interval) == now], in the order of the list.
    With the product taken as the int64 the code computes, this test holds
    when the product is zero or negative, and otherwise exactly when [now]
    is a multiple of the product since the zero time; the product is
    [Frequency * interval] itself when that is a Duration. *)
Theorem processJobs_due_rule now interval jobs s :
  launched (since s (snd (processJobs now interval jobs s))) =
    filter (due now interval) jobs /\
  forall j,
    (due now interval j = true <->
       Truncate now (dmul (Frequency j) interval) = now) /\
    (due now interval j = true <->
       dmul (Frequency j) interval <= 0 \/
       exists k, now = k * dmul (Frequency j) interval) /\
    (minDuration <= Frequency j * interval <= maxDuration ->
       dmul (Frequency j) interval = Frequency j * interval).
Proof.
  split; [apply processJobs_launched |].
  intros j. split; [apply due_iff |]. split; [| apply dmul_exact].
  rewrite due_iff.
  destruct (Z_le_gt_dec (dmul (Frequency j) interval) 0) as [Hle | Hgt].
  - split; [intros _; left; exact Hle |].
    intros _. apply Truncate_nonpositive, Hle.
  - rewrite Truncate_fixed_iff by lia. split.
    + intros H. right. exact H.
    + intros [H | H]; [lia | exact H].
Qed.

End DueRule.

(** C1, as stated, fails. With an interval of 2^32 and a frequency of
    2^32 + 1 the int64 product wraps to 2^32, so the job is due and launched
    at the tick 2^32, which is no multiple of (2^32 + 1) * 2^32; and a job of
    frequency 0 is due at the tick 10, which is no multiple of 0 * 10. *)
Lemma due_at_ticks_off_the_multiples :
  Truncate 4294967296 4294967296 = 4294967296 /\
  dmul 4294967297 4294967296 = 4294967296 /\
  due 4294967296 4294967296 (okJob "W" 4294967297) = true /\
  launched (since (initState tt (readings [] 0))
              (snd (processJobs 4294967296 4294967296 [okJob "W" 4294967297]
                      (initState tt (readings [] 0))))) =
    [okJob "W" 4294967297] /\
  ~ (exists k, 4294967296 = k * (4294967297 * 4294967296)) /\
  due 10 10 (okJob "Z" 0) = true /\
  ~ (exists k, 10 = k * (0 * 10)).
Proof.
  repeat (split; [reflexivity |]).
  split; [intros [k H]; lia |].
  split; [reflexivity |].
  intros [k H]; lia.
Qed.

(** C10, as stated, fails for a negative frequency. With an interval of
    -10 the product with frequency -3 is 30 and the job is not due at 15;
    with an interval of 2^61 the product with frequency -5 wraps to 3 * 2^61
    and the job is not due, nor launched, at the tick 2^61; with an interval
    of 2^62 the product with frequency -3 wraps to 2^62 and the job is not
    due at 7. *)
Lemma negative_frequency_not_due_everywhere :
  Truncate 15 (-10) = 15 /\
  due 15 (-10) (okJob "N" (-3)) = false /\
  Truncate 2305843009213693952 2305843009213693952 = 2305843009213693952 /\
  dmul (-5) 2305843009213693952 = 3 * 2305843009213693952 /\
  due 2305843009213693952 2305843009213693952 (okJob "N" (-5)) = false /\
  launched (since (initState tt (readings [] 0))
              (snd (processJobs 2305843009213693952 2305843009213693952
                      [okJob "N" (-5)] (initState tt (readings [] 0))))) = [] /\
  due 7 4611686018427387904 (okJob "N" (-3)) = false.
Proof. repeat split. Qed.

(** ** The rounds of a pass *)

Section Rounds.

Context {U : Type}.
Implicit Types (s : State U) (j : Job U) (jobs : list (Job U))
  (getJobs : JobLoader U).






End Rounds.

